(** * Portunix release tooling: a shallow embedding and its properties

    The development follows three scripts of the repository:
    - [scripts/make-release.py]             (module [MakeRelease]),
    - [scripts/create-platform-archives.py] (module [CreatePlatformArchives]),
    - [scripts/release/collect_release_notes.py] (module [CollectReleaseNotes]).

    Python values are modelled directly: [str] as [string] (characters are
    code points below 256), exceptions as a sum type, [print] as a log of
    messages returned with the result, the file system as finite maps.
    Library behaviour the scripts rely on ([re], [zipfile], [tarfile],
    [shutil], [pathlib], [subprocess]) is modelled in [Py], [Re] and [Fs]. *)

From Stdlib Require Import ZArith Ascii String.
From stdpp Require Import gmap strings list fin_maps sorting pretty.

Set Warnings "-register-all".

(** ** Python-level primitives *)
Module Py.

Inductive exn : Type :=
| ValueError
| TypeError
| AttributeError
| KeyError
| FileNotFoundError
| FileExistsError
| IsADirectoryError
| NotADirectoryError
| BadZipFile
| ReadError
| CalledProcessError.

(** The outcome of a call: a value, or a raised exception. *)
Inductive result (A : Type) : Type :=
| Ok (a : A)
| Raise (e : exn).
Arguments Ok {A} a.
Arguments Raise {A} e.

#[export] Instance result_ret : MRet result := λ A a, Ok a.

#[export] Instance result_bind : MBind result := λ A B f m,
  match m with
  | Ok a => f a
  | Raise e => Raise e
  end.

Definition is_ok {A : Type} (m : result A) : bool :=
  match m with Ok _ => true | Raise _ => false end.

(** Console output.  [print_step], [print_info], [print_warning],
    [print_error] and [print_success] differ by colour and prefix only; the
    constructor records which one was called.  [Out] is a bare [print],
    [Stderr] a [print(..., file=sys.stderr)].  The texts are those of the
    source without their decorative symbols (emoji, check marks, boxes);
    file sizes, which the model does not have, are left out of them. *)
Inductive message : Type :=
| Step (s : string)
| Info (s : string)
| Warning (s : string)
| Error (s : string)
| Success (s : string)
| Out (s : string)
| Stderr (s : string).

(** What a run of effectful code leaves behind: the final state, what it
    printed, and the value it returned or the exception that escaped. *)
Record outcome (S A : Type) : Type := Outcome {
  final : S;
  printed : list message;
  returned : result A
}.
Arguments Outcome {S A} final printed returned.
Arguments final {S A} o.
Arguments printed {S A} o.
Arguments returned {S A} o.


Definition is_warning (m : message) : bool :=
  match m with Warning _ => true | _ => false end.

Definition is_error (m : message) : bool :=
  match m with Error _ => true | _ => false end.

Definition is_success (m : message) : bool :=
  match m with Success _ => true | _ => false end.

(** [s.startswith(p)] and [s.endswith(p)]. *)
Definition startswith (p s : string) : bool := String.prefix p s.

Definition endswith (p s : string) : bool :=
  String.prefix (String.rev p) (String.rev s).

(** [needle in hay] for strings. *)
Fixpoint contains (needle hay : string) : bool :=
  String.prefix needle hay ||
  match hay with
  | EmptyString => false
  | String _ hay' => contains needle hay'
  end.

(** [sep.join(parts)]. *)
Fixpoint join (sep : string) (parts : list string) : string :=
  match parts with
  | [] => ""
  | [p] => p
  | p :: ps => p +:+ sep +:+ join sep ps
  end.

Definition is_digit (c : ascii) : bool :=
  let n := nat_of_ascii c in (48 <=? n)%nat && (n <=? 57)%nat.

(** [s.split(sep)] for a one-character separator: never empty, and empty
    pieces are kept. *)
Fixpoint split (sep : ascii) (s : string) : list string :=
  match s with
  | EmptyString => [""]
  | String c s' =>
      if Ascii.eqb c sep then "" :: split sep s'
      else match split sep s' with
           | piece :: pieces => String c piece :: pieces
           | [] => [String c ""]
           end
  end.

(** White space as [int()] and [str.strip()] see it, among the code points
    below 256. *)
Definition is_space (c : ascii) : bool :=
  let n := nat_of_ascii c in
  ((9 <=? n)%nat && (n <=? 13)%nat) || ((28 <=? n)%nat && (n <=? 32)%nat)
  || (n =? 133)%nat || (n =? 160)%nat.

Fixpoint lstrip (s : string) : string :=
  match s with
  | EmptyString => ""
  | String c s' => if is_space c then lstrip s' else s
  end.

Definition strip (s : string) : string :=
  String.rev (lstrip (String.rev (lstrip s))).

Definition digit_value (c : ascii) : Z := Z.of_nat (nat_of_ascii c) - 48.

(** The digits of a decimal literal, with single underscores allowed
    between digits.  [after_digit] tells whether the previous character was
    a digit. *)
Fixpoint decimal (acc : Z) (after_digit : bool) (s : string) : option Z :=
  match s with
  | EmptyString => if after_digit then Some acc else None
  | String c s' =>
      if is_digit c then decimal (10 * acc + digit_value c) true s'
      else if Ascii.eqb c "_" && after_digit then decimal acc false s'
      else None
  end.

(** [int(s)] for a string: surrounding white space, an optional sign,
    decimal digits with optional single underscores between them.  [None]
    stands for [ValueError].  (The limit of 4300 digits is not modelled: no
    file name is that long.) *)
Definition py_int (s : string) : option Z :=
  match strip s with
  | String "+" digits => decimal 0 false digits
  | String "-" digits => Z.opp <$> decimal 0 false digits
  | digits => decimal 0 false digits
  end.

(** [s.isdigit()]: not empty, and every character a digit; below 256
    these are [0]-[9] and the superscripts one, two and three. *)
Definition is_digit_char (c : ascii) : bool :=
  let n := nat_of_ascii c in
  is_digit c || (n =? 178)%nat || (n =? 179)%nat || (n =? 185)%nat.

Fixpoint all_chars (f : ascii → bool) (s : string) : bool :=
  match s with
  | EmptyString => true
  | String c s' => f c && all_chars f s'
  end.

Definition isdigit (s : string) : bool :=
  negb (String.eqb s "") && all_chars is_digit_char s.

(** [s.split()]: the maximal runs of characters that are not white space. *)
Fixpoint words_from (current : string) (s : string) : list string :=
  match s with
  | EmptyString =>
      match current with
      | EmptyString => []
      | _ => [String.rev current]
      end
  | String c s' =>
      if is_space c
      then match current with
           | EmptyString => words_from "" s'
           | _ => String.rev current :: words_from "" s'
           end
      else words_from (String c current) s'
  end.

Definition words (s : string) : list string := words_from "" s.

(** The characters of a string, one string each. *)
Fixpoint chars (s : string) : list string :=
  match s with
  | EmptyString => []
  | String c s' => String c "" :: chars s'
  end.

(** [s[1:]] and [s[:-n]]. *)
Definition drop_first (s : string) : string :=
  match s with
  | EmptyString => ""
  | String _ s' => s'
  end.

Definition drop_last (n : nat) (s : string) : string :=
  String.substring 0 (String.length s - n) s.

End Py.
Export Py.

(** ** The fragment of [re] used by the scripts *)
Module Re.

(** Patterns are built from the constructs that occur in the source:
    anchors, literal text, [\d+], an optional group and concatenation. *)
Inductive regex : Type :=
| Caret
| Dollar
| Lit (s : string)
| Digits1
| Optional (r : regex)
| Cat (r1 r2 : regex).

(** [strip l s] is the rest of [s] after the literal [l], if [s] starts
    with it. *)
Fixpoint strip (l s : string) : option string :=
  match l with
  | EmptyString => Some s
  | String a l' =>
      match s with
      | EmptyString => None
      | String b s' => if Ascii.eqb a b then strip l' s' else None
      end
  end.

(** [\d+], greedy with backtracking: consume one digit, then prefer to
    consume more before handing the rest to the continuation. *)
Fixpoint digits1 (s : string) (k : string → bool) : bool :=
  match s with
  | EmptyString => false
  | String c s' => if is_digit c then digits1 s' k || k s' else false
  end.

(** Without [re.MULTILINE], [$] matches at the end of the string and just
    before a newline that ends the string. *)
Definition at_dollar (s : string) : bool :=
  match s with
  | EmptyString => true
  | String c EmptyString => Ascii.eqb c "010"%char
  | _ => false
  end.

(** A backtracking matcher in continuation-passing style.  [at_start]
    tells whether the current position is the start of the subject. *)
Fixpoint run (r : regex) (at_start : bool) (s : string)
    (k : bool → string → bool) : bool :=
  match r with
  | Caret => at_start && k at_start s
  | Dollar => at_dollar s && k at_start s
  | Lit l =>
      match strip l s with
      | Some rest => k (at_start && String.eqb l "") rest
      | None => false
      end
  | Digits1 => digits1 s (k false)
  | Optional r' => run r' at_start s k || k at_start s
  | Cat r1 r2 => run r1 at_start s (λ b s', run r2 b s' k)
  end.

(** [bool(re.match(pattern, s))]: a match anchored at the start of [s]. *)
Definition matches (pattern : regex) (s : string) : bool :=
  run pattern true s (λ _ _, true).

End Re.

(** ** Files, directory trees and archives *)
Module Fs.

(** A path relative to some root, as its components; [[]] is the root. *)
Abbreviation path := (list string).

Inductive archive_format : Type := TarGz | Zip.

Definition format_eqb (a b : archive_format) : bool :=
  match a, b with
  | TarGz, TarGz | Zip, Zip => true
  | _, _ => false
  end.

(** What a path names: a regular file with its data, or a directory. *)
Inductive node (D : Type) : Type :=
| File (d : D)
| Dir.
Arguments File {D} d.
Arguments Dir {D}.

(** The data of a regular file.  A file written by [zipfile] or [tarfile]
    is kept as the list of its members, in the order they were added (a
    member is a file with its data or a directory entry); any other file is
    a sequence of bytes.  Two files are byte-identical when their [fdata]
    are equal.  Links, devices, permissions and time stamps are not
    modelled. *)
Inductive fdata : Type :=
| Bytes (s : string)
| Packed (fmt : archive_format) (members : list (path * node fdata)).

(** A directory tree below a root: every file and directory by its path.
    The root itself is not a key. *)
Abbreviation tree := (gmap (list string) (node fdata)).

Definition lookup_node (t : tree) (p : path) : option (node fdata) :=
  match p with
  | [] => Some Dir
  | _ => t !! p
  end.

Definition is_dir (t : tree) (p : path) : bool :=
  match lookup_node t p with
  | Some Dir => true
  | _ => false
  end.

Definition file_data (n : node fdata) : option fdata :=
  match n with
  | File d => Some d
  | Dir => None
  end.

(** [os.makedirs(base/rest, exist_ok=True)], given that [base] exists:
    walk down, creating the directories that are missing. *)
Fixpoint makedirs_from (t : tree) (base rest : path) : result tree :=
  match rest with
  | [] => Ok t
  | c :: rest' =>
      let p := base ++ [c] in
      match t !! p with
      | Some (File _) => Raise NotADirectoryError
      | Some Dir => makedirs_from t p rest'
      | None => makedirs_from (<[p := Dir]> t) p rest'
      end
  end.

Definition makedirs (t : tree) (p : path) : result tree :=
  makedirs_from t [] p.

(** [Path.mkdir(exist_ok=True)]: the parent has to exist, an existing
    directory is accepted, an existing file is not. *)
Definition mkdir_exist_ok (t : tree) (p : path) : result tree :=
  match lookup_node t p with
  | Some Dir => Ok t
  | Some (File _) => Raise FileExistsError
  | None =>
      match lookup_node t (removelast p) with
      | Some Dir => Ok (<[p := Dir]> t)
      | Some (File _) => Raise NotADirectoryError
      | None => Raise FileNotFoundError
      end
  end.

(** [open(p, 'wb')] followed by writing [d]: the parent has to be a
    directory and [p] must not be one; an existing file is replaced. *)
Definition write_file (t : tree) (p : path) (d : fdata) : result tree :=
  match lookup_node t p with
  | Some Dir => Raise IsADirectoryError
  | _ =>
      match lookup_node t (removelast p) with
      | Some Dir => Ok (<[p := File d]> t)
      | Some (File _) => Raise NotADirectoryError
      | None => Raise FileNotFoundError
      end
  end.

(** Extraction of one archive member below the root of [t]
    ([ZipFile._extract_member], [TarFile._extract_member]): create the
    directories above it, then the directory or the file itself. *)
Definition extract_member (t : tree) (p : path) (n : node fdata)
    : result tree :=
  t1 ← makedirs t (removelast p);
  match n with
  | Dir => mkdir_exist_ok t1 p
  | File d => write_file t1 p d
  end.

(** [extractall]: the members in archive order; a later member replaces
    an earlier file of the same name. *)
Fixpoint extractall (members : list (path * node fdata)) (t : tree)
    : result tree :=
  match members with
  | [] => Ok t
  | (p, n) :: rest => t' ← extract_member t p n; extractall rest t'
  end.

(** Opening a file as an archive of format [fmt]:
    [zipfile.ZipFile(f, 'r')] raises [BadZipFile] and
    [tarfile.open(f, 'r:gz')] raises [ReadError] on anything else. *)
Definition bad_archive (fmt : archive_format) : exn :=
  match fmt with
  | Zip => BadZipFile
  | TarGz => ReadError
  end.

Definition read_members (fmt : archive_format) (d : fdata)
    : result (list (path * node fdata)) :=
  match d with
  | Packed fmt' members =>
      if format_eqb fmt fmt' then Ok members else Raise (bad_archive fmt)
  | Bytes _ => Raise (bad_archive fmt)
  end.

(** The two walks used to write an archive from a directory.
    - zip: [for item in root.rglob('*'): if item.is_file():
      zipf.write(item, item.relative_to(root))], regular files only;
    - tar.gz: [for item in root.iterdir(): tar.add(item, arcname=item.name)],
      which adds directories and, recursively, what they contain.
    The order in which the operating system lists a directory is not
    specified; the walks enumerate the tree in the order of the map. *)
Definition walk_files (t : tree) : list (path * node fdata) :=
  (λ e : path * fdata, (e.1, File e.2)) <$> map_to_list (omap file_data t).

Definition walk_all (t : tree) : list (path * node fdata) :=
  map_to_list t.

Definition walk (fmt : archive_format) (t : tree)
    : list (path * node fdata) :=
  match fmt with
  | Zip => walk_files t
  | TarGz => walk_all t
  end.

Definition pack (fmt : archive_format) (t : tree) : fdata :=
  Packed fmt (walk fmt t).

(** [strip_base base p]: [p] relative to [base], when [p] lies below it. *)
Fixpoint strip_base (base p : path) : option path :=
  match base with
  | [] => Some p
  | b :: base' =>
      match p with
      | [] => None
      | c :: p' => if String.eqb b c then strip_base base' p' else None
      end
  end.

(** The tree below directory [d] of [t], with paths relative to [d]. *)
Definition subtree (t : tree) (d : path) : tree :=
  list_to_map
    (omap (λ e : path * node fdata,
             match strip_base d e.1 with
             | Some (c :: q) => Some (c :: q, e.2)
             | _ => None
             end)
          (map_to_list t)).

(** [list(d.iterdir())]: the names directly below [d]. *)
Definition iterdir (t : tree) (d : path) : list string :=
  omap (λ e : path * node fdata,
          match strip_base d e.1 with
          | Some [c] => Some c
          | _ => None
          end)
       (map_to_list t).

(** [name] matches the glob pattern [prefix*suffix]. *)
Definition glob_match (prefix suffix name : string) : bool :=
  startswith prefix name && endswith suffix name
  && (String.length prefix + String.length suffix <=? String.length name)%nat.

(** [d.glob(prefix*suffix)] on a directory given by its entries. *)
Definition glob {X : Type} (prefix suffix : string) (d : gmap string X)
    : list (string * X) :=
  filter (λ e, glob_match prefix suffix e.1 = true) (map_to_list d).

End Fs.
Export Fs.
(** ** scripts/make-release.py *)
Module MakeRelease.

(** The pattern [^v\d+\.\d+\.\d+(-SNAPSHOT)?$]. *)
Definition version_pattern : Re.regex :=
  Re.Cat Re.Caret
 (Re.Cat (Re.Lit "v")
 (Re.Cat Re.Digits1
 (Re.Cat (Re.Lit ".")
 (Re.Cat Re.Digits1
 (Re.Cat (Re.Lit ".")
 (Re.Cat Re.Digits1
 (Re.Cat (Re.Optional (Re.Lit "-SNAPSHOT"))
         Re.Dollar))))))).

Definition validate_version (version : string) : bool :=
  Re.matches version_pattern version.

Definition print_header : list message :=
  [Out "PORTUNIX RELEASE MAKER"; Out "One-command release preparation"; Out ""].

Definition show_usage : list message :=
  [Out "Usage: python scripts/make-release.py <version>"; Out "";
   Out "Examples:";
   Out "  python scripts/make-release.py v1.5.1";
   Out "  python scripts/make-release.py v1.6.0"; Out "";
   Out "This script will:";
   Out "  1. Validate version format";
   Out "  2. Update version in source files";
   Out "  3. Build cross-platform binaries using GoReleaser";
   Out "  4. Create packages with install scripts";
   Out "  5. Generate checksums";
   Out "  6. Prepare everything for GitHub release"].

(** [main], with the stages that follow a successful validation passed as
    [pipeline]: it receives the validated version and yields what the
    stages print and the exit status. *)
Definition main (pipeline : string → list message * Z) (argv : list string)
    : list message * Z :=
  match argv with
  | [] | [_] =>
      (print_header ++ [Error "Version parameter is required"] ++ show_usage, 1%Z)
  | _ :: version :: _ =>
      if String.eqb version "-h" || String.eqb version "--help"
      then (print_header ++ show_usage, 0%Z)
      else if negb (validate_version version)
      then (print_header
              ++ [Error "Invalid version format. Use semantic versioning: v1.2.3"]
              ++ show_usage, 1%Z)
      else let '(out, status) := pipeline version in
           (print_header
              ++ [Info ("Creating release for version: " +:+ version); Out ""]
              ++ out, status)
  end.

(** *** The build stage: [run_goreleaser] *)

(** The [dist/] directory of the project: its entries by name.  A
    sub-directory is kept with the entries directly below it. *)
Inductive dist_entry : Type :=
| RegFile (d : fdata)
| SubDir (children : gmap string (node fdata)).

Abbreviation dist_dir := (gmap string dist_entry).

(** The part of the project the release script acts on: the tags of the git
    repository and [dist/] ([None] when it does not exist). *)
Record world : Type := World {
  tags : gset string;
  dist : option dist_dir
}.

(** How a child process ended, as [subprocess.run] reports it: with a
    return code, or not at all because the executable could not be
    launched ([FileNotFoundError]). *)
Inductive process : Type :=
| Exited (returncode : Z)
| NotFound.

(** One run of the external build tool: how it ended and, when it ran,
    what it left in [dist/]. *)
Record tool_run : Type := ToolRun {
  ended : process;
  dist_after : option dist_dir
}.

(** [run_command(cmd, capture=..., check=...)]: the return code, or the
    exception [subprocess.run] raises.  With [capture] the failure is
    reported before it is raised again. *)
Definition run_command (cmd : string) (capture check : bool) (p : process)
    : list message * result Z :=
  match p with
  | NotFound => ([], Raise FileNotFoundError)
  | Exited rc =>
      if check && negb (rc =? 0)%Z
      then ((if capture then [Error ("Command failed: " +:+ cmd)] else []),
            Raise CalledProcessError)
      else ([], Ok rc)
  end.

(** [git tag -d version] and [git tag version] on the tags of the
    repository. *)
Definition git_tag_delete (version : string) (w : world) : world * process :=
  if decide (version ∈ tags w)
  then (World (tags w ∖ {[version]}) (dist w), Exited 0)
  else (w, Exited 1).

Definition git_tag_create (version : string) (w : world) : world * process :=
  if decide (version ∈ tags w)
  then (w, Exited 128)
  else (World ({[version]} ∪ tags w) (dist w), Exited 0).

(** The external tool acts on [dist/] only. *)
Definition goreleaser_release (build : tool_run) (w : world) : world * process :=
  match ended build with
  | Exited rc => (World (tags w) (dist_after build), Exited rc)
  | NotFound => (w, NotFound)
  end.

(** The body of the [try] block: the build, then the removal of the tag. *)
Definition tagged_build (version : string) (build : tool_run) (w : world)
    : outcome world unit :=
  let '(w1, p1) := goreleaser_release build w in
  match run_command "goreleaser release --clean --skip-validate --skip-publish"
          false true p1 with
  | (l1, Raise e) => Outcome w1 l1 (Raise e)
  | (l1, Ok _) =>
      let l2 := [Info "GoReleaser completed successfully";
                 Info "Removing temporary git tag..."] in
      let '(w2, p2) := git_tag_delete version w1 in
      match run_command ("git tag -d " +:+ version) true true p2 with
      | (l3, Raise e) => Outcome w2 (l1 ++ l2 ++ l3) (Raise e)
      | (l3, Ok _) => Outcome w2 (l1 ++ l2 ++ l3) (Ok ())
      end
  end.

Definition run_goreleaser (version : string) (build : tool_run) (w : world)
    : outcome world bool :=
  let l0 := [Step "Running GoReleaser to create cross-platform release...";
             Info "Cleaning previous builds..."] in
  (* shutil.rmtree(dist_dir) *)
  let w0 := World (tags w) None in
  let l1 := [Info "Building release packages...";
             Info ("Creating temporary git tag " +:+ version +:+ " for build...")] in
  (* git tag -d, check=False, any exception ignored *)
  let w1 := (git_tag_delete version w0).1 in
  let '(w2, p2) := git_tag_create version w1 in
  match run_command ("git tag " +:+ version) false true p2 with
  | (l2, Raise e) => Outcome w2 (l0 ++ l1 ++ l2) (Raise e)
  | (l2, Ok _) =>
      let o := tagged_build version build w2 in
      match returned o with
      | Ok _ => Outcome (final o) (l0 ++ l1 ++ l2 ++ printed o ++ [Out ""]) (Ok true)
      | Raise CalledProcessError =>
          (* except subprocess.CalledProcessError: clean up the tag *)
          let w3 := (git_tag_delete version (final o)).1 in
          Outcome w3 (l0 ++ l1 ++ l2 ++ printed o ++ [Error "GoReleaser failed"])
                  (Ok false)
      | Raise e => Outcome (final o) (l0 ++ l1 ++ l2 ++ printed o) (Raise e)
      end
  end.

(** *** The injection stage: [inject_platform_archives] *)

(** Release archives are told apart by their name. *)
Definition format_of_name (archive_name : string) : archive_format :=
  if endswith ".zip" archive_name then Zip else TarGz.

(** [list(dist_dir.glob("portunix_*.tar.gz")) +
     list(dist_dir.glob("portunix_*.zip"))], by name. *)
Definition release_archives (d : dist_dir) : list string :=
  (glob "portunix_" ".tar.gz" d).*1 ++ (glob "portunix_" ".zip" d).*1.

(** [list(platforms_dir.glob("*.tar.gz")) + list(platforms_dir.glob("*.zip"))];
    a path that is not a directory has no matches. *)
Definition platform_archives (d : dist_dir) : list (string * node fdata) :=
  match d !! "platforms" with
  | Some (SubDir children) => glob "" ".tar.gz" children ++ glob "" ".zip" children
  | _ => []
  end.

(** Opening the release archive [archive_name] for reading. *)
Definition open_release (d : dist_dir) (archive_name : string)
    : result (list (path * node fdata)) :=
  match d !! archive_name with
  | None => Raise FileNotFoundError
  | Some (SubDir _) => Raise IsADirectoryError
  | Some (RegFile data) => read_members (format_of_name archive_name) data
  end.

(** [shutil.copy2(src, dest_dir)]: [src] is opened for reading, then
    [dest_dir/name] for writing. *)
Definition copy2 (name : string) (src : node fdata) (dest_dir : path) (t : tree)
    : result tree :=
  match src with
  | Dir => Raise IsADirectoryError
  | File data => write_file t (dest_dir ++ [name]) data
  end.

Fixpoint copy_all (srcs : list (string * node fdata)) (dest_dir : path)
    (t : tree) : result tree :=
  match srcs with
  | [] => Ok t
  | (name, src) :: rest => t' ← copy2 name src dest_dir t; copy_all rest dest_dir t'
  end.

(** The scratch tree of one release archive, ready to be written back:
    the extracted members, [platforms/], and the platform archives in it. *)
Definition prepare_tree (d : dist_dir) (archive_name : string) : result tree :=
  members ← open_release d archive_name;
  t0 ← extractall members ∅;
  t1 ← mkdir_exist_ok t0 ["platforms"];
  copy_all (platform_archives d) ["platforms"] t1.

(** One iteration of the loop over the release archives.  The scratch
    directory is private to the iteration and removed on every exit.  The
    original file is unlinked and written anew only after the scratch tree
    is complete. *)
Definition inject_one (archive_name : string) (d : dist_dir)
    : outcome dist_dir unit :=
  let l0 := [Info ("Processing " +:+ archive_name +:+ "...")] in
  match prepare_tree d archive_name with
  | Raise e => Outcome d l0 (Raise e)
  | Ok t =>
      let rewritten := RegFile (pack (format_of_name archive_name) t) in
      Outcome (<[archive_name := rewritten]> (delete archive_name d))
              (l0 ++ [Info ("  Added platforms/ to " +:+ archive_name)])
              (Ok ())
  end.

(** The [for] loop: an exception ends it. *)
Fixpoint inject_each (names : list string) (d : dist_dir)
    : outcome dist_dir unit :=
  match names with
  | [] => Outcome d [] (Ok ())
  | name :: rest =>
      let o := inject_one name d in
      match returned o with
      | Raise e => o
      | Ok _ =>
          let o' := inject_each rest (final o) in
          Outcome (final o') (printed o ++ printed o') (returned o')
      end
  end.

Definition inject_platform_archives (d : dist_dir) : outcome dist_dir unit :=
  let l0 := [Step "Injecting platform archives into release packages..."] in
  match d !! "platforms" with
  | None =>
      Outcome d (l0 ++ [Warning "Platforms directory not found, skipping injection"])
              (Ok ())
  | Some _ =>
      let o := inject_each (release_archives d) d in
      match returned o with
      | Raise e => Outcome (final o) (l0 ++ printed o) (Raise e)
      | Ok _ =>
          Outcome (final o)
                  (l0 ++ printed o
                      ++ [Info "Platform archives injected into all release packages";
                          Out ""])
                  (Ok ())
      end
  end.

(** *** The dependency check: [check_dependencies] *)

(** A child process run with [capture=True]: its return code and what it
    wrote, or no process at all because the executable was not found. *)
Inductive captured : Type :=
| Completed (returncode : Z) (stdout stderr : string)
| Unlaunched.

(** What [check_dependencies] finds: the four tools it runs and whether
    [.goreleaser.yml] is there.  [home_goreleaser] is the path
    [~/go/bin/goreleaser] as a string. *)
Record environment : Type := Environment {
  go_version : captured;
  goreleaser_on_path : captured;
  home_goreleaser : string;
  goreleaser_in_home : captured;
  git_rev_parse : captured;
  goreleaser_yml : bool
}.

(** The outcome of [check_dependencies]: the pair it returns, or the
    [IndexError] that leaves it. *)
Inductive dependencies : Type :=
| Checked (ok : bool) (goreleaser_cmd : string)
| IndexErrorRaised.

(** What [run_command(cmd, capture=True, check=True)] prints when the
    process ends with an error, before the exception is raised again. *)
Definition command_failed (cmd stdout stderr : string) : list message :=
  [Error ("Command failed: " +:+ cmd)]
  ++ (if String.eqb stdout "" then [] else [Out stdout])
  ++ (if String.eqb stderr "" then [] else [Out stderr]).

(** The loop over the two places where GoReleaser may be: the first
    candidate that can be launched and returns 0 is taken. *)
Fixpoint find_goreleaser (candidates : list (string * captured))
    : list message * option string :=
  match candidates with
  | [] => ([], None)
  | (cmd, Completed returncode stdout _) :: rest =>
      if (returncode =? 0)%Z
      then ([Info ("GoReleaser: "
                   +:+ (if String.eqb stdout "" then "unknown"
                        else default "" (head (split "010" (strip stdout)))))],
            Some cmd)
      else find_goreleaser rest
  | (_, Unlaunched) :: rest => find_goreleaser rest
  end.

Definition check_dependencies (env : environment)
    : list message * dependencies :=
  let l0 := [Step "Checking dependencies..."] in
  match go_version env with
  | Unlaunched =>
      (l0 ++ [Error "Go is not installed or not in PATH"], Checked false "")
  | Completed returncode stdout stderr =>
      if negb (returncode =? 0)%Z
      then (l0 ++ command_failed "go version" stdout stderr
               ++ [Error "Go is not installed or not in PATH"],
            Checked false "")
      else
        match (if String.eqb stdout "" then Some "unknown"
               else words stdout !! 2%nat) with
        | None => (l0, IndexErrorRaised)
        | Some version =>
            let l1 := l0 ++ [Info ("Go: " +:+ version)] in
            match find_goreleaser
                    [("goreleaser", goreleaser_on_path env);
                     (home_goreleaser env, goreleaser_in_home env)] with
            | (l2, None) =>
                (l1 ++ l2
                    ++ [Error "GoReleaser is not installed";
                        Info "Install with: go install github.com/goreleaser/goreleaser@latest"],
                 Checked false "")
            | (l2, Some cmd) =>
                if String.eqb cmd ""
                then (l1 ++ l2
                         ++ [Error "GoReleaser is not installed";
                             Info "Install with: go install github.com/goreleaser/goreleaser@latest"],
                      Checked false "")
                else
                match git_rev_parse env with
                | Unlaunched =>
                    (l1 ++ l2 ++ [Error "Not in a git repository"],
                     Checked false "")
                | Completed rc out err =>
                    if negb (rc =? 0)%Z
                    then (l1 ++ l2
                             ++ command_failed "git rev-parse --git-dir" out err
                             ++ [Error "Not in a git repository"],
                          Checked false "")
                    else
                      let l3 := l1 ++ l2 ++ [Info "Git repository detected"] in
                      if goreleaser_yml env
                      then (l3 ++ [Info "GoReleaser config found"; Out ""],
                            Checked true cmd)
                      else (l3 ++ [Error ".goreleaser.yml not found"],
                            Checked false "")
                end
            end
        end
  end.

(** *** The output check: [verify_outputs] *)

(** [sorted(...)] on file names. *)
Fixpoint insert_name (x : string) (l : list string) : list string :=
  match l with
  | [] => [x]
  | y :: l' => if String.ltb x y then x :: l else y :: insert_name x l'
  end.

Definition sort_names (l : list string) : list string :=
  foldr insert_name [] l.

(** [dist_dir.glob("*checksums*")], by name. *)
Definition checksum_files (d : dist_dir) : list string :=
  filter (λ name, contains "checksums" name = true) (map_to_list d).*1.

(** [verify_outputs]: what it prints and what it returns. *)
Definition verify_outputs (dist : option dist_dir) : list message * bool :=
  let l0 := [Step "Verifying generated files..."] in
  match dist with
  | None => (l0 ++ [Error "dist/ directory not found"], false)
  | Some d =>
      let archives := (glob "" ".tar.gz" d).*1 ++ (glob "" ".zip" d).*1 in
      let checksums := checksum_files d in
      let platform := (platform_archives d).*1 in
      let l1 :=
        l0 ++ [Info "Generated files:";
               Out ("   Release archives: " +:+ pretty (length archives));
               Out ("   Platform archives: " +:+ pretty (length platform));
               Out ("   Checksum files: " +:+ pretty (length checksums))] in
      match archives with
      | [] => (l1 ++ [Error "No archive files generated"], false)
      | _ =>
          (l1 ++ [Out ""; Out "Generated release files:"]
              ++ ((λ name, Out ("   " +:+ name))
                    <$> sort_names (archives ++ checksums))
              ++ (match platform with
                  | [] => []
                  | _ => [Out "";
                          Out "Platform archives (for cross-platform provisioning):"]
                         ++ ((λ name, Out ("   " +:+ name)) <$> sort_names platform)
                  end)
              ++ [Out ""],
           true)
      end
  end.

End MakeRelease.
(** ** scripts/create-platform-archives.py *)
Module CreatePlatformArchives.

Definition PLATFORMS : list string :=
  ["linux-amd64"; "linux-arm64"; "windows-amd64"; "darwin-amd64"].

(** A path as it is printed. *)
Definition path_text (p : path) : string := join "/" p.

(** [tarfile.open(output_path, "w:gz")], then every entry of [source_dir]
    added with what it contains.  The output file is opened before the
    source is listed; [tarfile] leaves the archive itself out when it lies
    inside [source_dir]. *)
Definition create_tar_gz (fs : tree) (source_dir output_path : path)
    : outcome tree unit :=
  match write_file fs output_path (Packed TarGz []) with
  | Raise e => Outcome fs [] (Raise e)
  | Ok fs1 =>
      match lookup_node fs1 source_dir with
      | Some Dir =>
          let members := walk TarGz (subtree (delete output_path fs) source_dir) in
          Outcome (<[output_path := File (Packed TarGz members)]> fs1) [] (Ok ())
      | Some (File _) => Outcome fs1 [] (Raise NotADirectoryError)
      | None => Outcome fs1 [] (Raise FileNotFoundError)
      end
  end.

(** [zipfile.ZipFile(output_path, 'w')], then every regular file below
    [source_dir] written under its relative path; a [source_dir] that is
    not a directory has no files.  (Were the archive inside [source_dir],
    [zipfile] would also add the part of the archive written so far to
    itself; that member is left out here.) *)
Definition create_zip (fs : tree) (source_dir output_path : path)
    : outcome tree unit :=
  match write_file fs output_path (Packed Zip []) with
  | Raise e => Outcome fs [] (Raise e)
  | Ok fs1 =>
      let members :=
        match lookup_node fs1 source_dir with
        | Some Dir => walk Zip (subtree (delete output_path fs) source_dir)
        | _ => []
        end in
      Outcome (<[output_path := File (Packed Zip members)]> fs1) [] (Ok ())
  end.

Definition get_archive_info (platform : string) : string * archive_format :=
  if startswith "windows" platform
  then (platform +:+ ".zip", Zip)
  else (platform +:+ ".tar.gz", TarGz).

(** One iteration of the loop over [PLATFORMS]: the file system after it,
    what it printed, and whether [created_count] was incremented.  Any
    exception raised while the archive is written is caught and reported. *)
Definition create_platform_archive (platforms_dir output_dir : path)
    (platform : string) (fs : tree) : tree * list message * bool :=
  let platform_path := platforms_dir ++ [platform] in
  if negb (is_dir fs platform_path)
  then (fs, [Warning ("Platform directory not found: " +:+ path_text platform_path)],
        false)
  else
    match iterdir fs platform_path with
    | [] =>
        (fs, [Warning ("No files in platform directory: " +:+ path_text platform_path)],
         false)
    | _ :: _ =>
        let '(archive_name, archive_type) := get_archive_info platform in
        let archive_path := output_dir ++ [archive_name] in
        let l0 := [Info ("Creating " +:+ archive_name +:+ "...")] in
        let o := match archive_type with
                 | Zip => create_zip fs platform_path archive_path
                 | TarGz => create_tar_gz fs platform_path archive_path
                 end in
        match returned o with
        | Ok _ =>
            (final o, l0 ++ [Success ("Created " +:+ path_text archive_path)], true)
        | Raise _ =>
            (final o, l0 ++ [Error ("Failed to create " +:+ archive_name)], false)
        end
    end.

(** The loop, with the counter as an accumulator. *)
Fixpoint create_each (platforms_dir output_dir : path)
    (platforms : list string) (fs : tree) (created_count : Z)
    : tree * list message * Z :=
  match platforms with
  | [] => (fs, [], created_count)
  | platform :: rest =>
      let '(fs1, l1, created) :=
        create_platform_archive platforms_dir output_dir platform fs in
      let '(fs2, l2, n) :=
        create_each platforms_dir output_dir rest fs1
                    (if created then created_count + 1 else created_count)%Z in
      (fs2, l1 ++ l2, n)
  end.

Definition create_platform_archives (platforms_dir output_dir : path)
    (fs : tree) : outcome tree Z :=
  let '(fs', l, n) := create_each platforms_dir output_dir PLATFORMS fs 0%Z in
  Outcome fs'
          (Info ("Creating platform archives from " +:+ path_text platforms_dir) :: l)
          (Ok n).

Definition show_summary (output_dir : path) (fs : tree) : list message :=
  [Out ""; Info "Platform archives created:"]
  ++ omap (λ platform,
             let archive_path := output_dir ++ [(get_archive_info platform).1] in
             match lookup_node fs archive_path with
             | Some _ => Some (Out ("   " +:+ path_text archive_path))
             | None => None
             end) PLATFORMS
  ++ [Out ""; Success "All platform archives created successfully"].

(** [output_dir.mkdir(parents=True, exist_ok=True)]. *)
Definition mkdir_parents (fs : tree) (p : path) : result tree :=
  match lookup_node fs p with
  | Some (File _) => Raise FileExistsError
  | _ => makedirs fs p
  end.

(** [main], once the two directories have been read from the command line
    or defaulted.  The result is the exit status. *)
Definition main (platforms_dir output_dir : path) (fs : tree)
    : outcome tree Z :=
  if negb (is_dir fs platforms_dir)
  then Outcome fs
         [Error ("Platforms directory not found: " +:+ path_text platforms_dir);
          Info "Run 'make build-all-platforms' first to build platform binaries"]
         (Ok 1%Z)
  else
    match mkdir_parents fs output_dir with
    | Raise e => Outcome fs [] (Raise e)
    | Ok fs1 =>
        let o := create_platform_archives platforms_dir output_dir fs1 in
        match returned o with
        | Raise e => o
        | Ok count =>
            if (count =? 0)%Z
            then Outcome (final o)
                         (printed o ++ [Error "No platform archives created"])
                         (Ok 1%Z)
            else Outcome (final o)
                         (printed o ++ show_summary output_dir (final o))
                         (Ok 0%Z)
        end
    end.

End CreatePlatformArchives.
(** ** scripts/release/collect_release_notes.py *)
Module CollectReleaseNotes.

(** A value read by [json.load].  A number is kept as the text [str()]
    gives for it, with whether it is zero.  The fields of an object are the
    items of the [dict], in order, with distinct keys. *)
Inductive json : Type :=
| JNull
| JBool (b : bool)
| JNum (zero : bool) (text : string)
| JStr (s : string)
| JArr (items : list json)
| JObj (fields : list (string * json)).

(** An entry of the release notes directory whose name ends in [.json]. *)
Inductive notes_entry : Type :=
| JsonFile (data : json)
| BrokenJson          (* a file that is not valid JSON *)
| Folder.             (* a directory *)

(** [RELEASE_NOTES_DIR]: [None] when it does not exist, else its entries by
    file name. *)
Abbreviation notes_dir := (option (gmap string notes_entry)).

(** What [git tag -l "v*" --sort=-v:refname] gives: a return code and the
    lines of its output, stripped and without the empty ones; or no [git]
    at all. *)
Inductive git_listing : Type :=
| GitOutput (returncode : Z) (lines : list string)
| GitMissing.

(** [bool(j)]. *)
Definition truthy (j : json) : bool :=
  match j with
  | JNull => false
  | JBool b => b
  | JNum zero _ => negb zero
  | JStr s => negb (String.eqb s "")
  | JArr items => match items with [] => false | _ => true end
  | JObj fields => match fields with [] => false | _ => true end
  end.

Fixpoint lookup_field (key : string) (fields : list (string * json))
    : option json :=
  match fields with
  | [] => None
  | (k, v) :: rest => if String.eqb k key then Some v else lookup_field key rest
  end.

(** [data.get(key, default)]: only a [dict] has [get]. *)
Definition get (data : json) (key : string) (default : json) : result json :=
  match data with
  | JObj fields => Ok (from_option id default (lookup_field key fields))
  | _ => Raise AttributeError
  end.

(** [key in data]. *)
Definition py_in (key : string) (data : json) : result bool :=
  match data with
  | JObj fields => Ok (bool_decide (is_Some (lookup_field key fields)))
  | JArr items =>
      Ok (existsb (λ j, match j with JStr s => String.eqb s key | _ => false end)
                  items)
  | JStr s => Ok (contains key s)
  | _ => Raise TypeError
  end.

(** [data[key]] for a string key. *)
Definition getitem (data : json) (key : string) : result json :=
  match data with
  | JObj fields =>
      match lookup_field key fields with
      | Some v => Ok v
      | None => Raise KeyError
      end
  | _ => Raise TypeError
  end.

(** [for x in j]: the items of a list, the keys of a dict, the characters
    of a string. *)
Definition py_iter (j : json) : result (list json) :=
  match j with
  | JArr items => Ok items
  | JObj fields => Ok (JStr <$> fields.*1)
  | JStr s => Ok (JStr <$> chars s)
  | _ => Raise TypeError
  end.

(** [tag.startswith(p)]: only a string has it. *)
Definition startswith_method (p : string) (j : json) : result bool :=
  match j with
  | JStr s => Ok (startswith p s)
  | _ => Raise AttributeError
  end.

(** [j == s] for a string [s]. *)
Definition is_str (s : string) (j : json) : bool :=
  match j with
  | JStr s' => String.eqb s' s
  | _ => false
  end.

Definition as_str (j : json) : result string :=
  match j with
  | JStr s => Ok s
  | _ => Raise TypeError
  end.

(** [sep.join(j)]: an iterable of strings. *)
Definition py_join (sep : string) (j : json) : result string :=
  items ← py_iter j; strs ← mapM as_str items; Ok (join sep strs).

Section Formatting.

(** [str(j)] for a value that is not a string, as an f-string shows it. *)
Variable py_format : json → string.

Definition fmt (j : json) : string :=
  match j with
  | JStr s => s
  | _ => py_format j
  end.

Definition get_git_tags (git : git_listing) : list message * list string :=
  match git with
  | GitMissing => ([Stderr "Warning: git not found"], [])
  | GitOutput returncode lines =>
      if negb (returncode =? 0)%Z
      then ([Stderr "Warning: Could not get git tags"], [])
      else ([], filter (λ tag,
                          let parts := split "." (drop_first tag) in
                          length parts = 3%nat ∧ forallb isdigit parts = true)
                       lines)
  end.

(** [f.stem] for a name that ends in [.json]. *)
Definition stem (name : string) : string :=
  if String.eqb name ".json" then name else drop_last 5 name.

Definition get_existing_json_versions (dir : notes_dir) : gset string :=
  match dir with
  | None => ∅
  | Some entries =>
      list_to_set
        (stem <$> filter (λ name, startswith "_" name = false)
                         (glob "" ".json" entries).*1)
  end.

Definition tag_to_version (tag : string) : string :=
  if startswith "v" tag then drop_first tag else tag.

Definition version_to_tag (version : string) : string :=
  if startswith "v" version then version else "v" +:+ version.

Definition load_release_notes (dir : notes_dir) (version : string)
    : list message * result (option json) :=
  match dir ≫= (λ entries, entries !! (version +:+ ".json")) with
  | None => ([], Ok None)
  | Some (JsonFile data) => ([], Ok (Some data))
  | Some BrokenJson =>
      ([Stderr ("Error: Invalid JSON in " +:+ version +:+ ".json")], Ok None)
  | Some Folder => ([], Raise IsADirectoryError)
  end.

Definition validate_json (data : json) (version : string)
    : result (list string) :=
  missing ← mapM (λ field,
                    present ← py_in field data;
                    Ok (if present : bool then []
                        else ["Missing required field: " +:+ field]))
                 ["version"; "date"; "tag"];
  found ← get data "version" JNull;
  let mismatch :=
    if is_str version found then []
    else ["Version mismatch: file is " +:+ version
            +:+ ".json but contains version " +:+ fmt found] in
  has_tag ← py_in "tag" data;
  tag_errors ←
    (if has_tag : bool then
       tag ← getitem data "tag";
       ok ← startswith_method "v" tag;
       Ok (if ok : bool then [] else ["Tag should start with 'v': " +:+ fmt tag])
     else Ok []);
  Ok (concat missing ++ mismatch ++ tag_errors).

Definition category_order : list (string * string) :=
  [("breaking", "Breaking Changes"); ("security", "Security");
   ("features", "New Features"); ("improvements", "Improvements");
   ("fixes", "Bug Fixes"); ("docs", "Documentation")].

Definition render_item (item : json) : result json :=
  desc ← get item "description" (JStr "");
  issue ← get item "issue" (JStr "");
  Ok (JStr (if truthy issue
            then "- " +:+ fmt desc +:+ " (" +:+ fmt issue +:+ ")"
            else "- " +:+ fmt desc)).

Definition render_category (changes : json) (category : string * string)
    : result (list json) :=
  items ← get changes category.1 (JArr []);
  if truthy items
  then entries ← py_iter items;
       rendered ← mapM render_item entries;
       Ok ([JStr ("### " +:+ category.2); JStr ""] ++ rendered ++ [JStr ""])
  else Ok [].

(** ["\n".join(lines)]: every line has to be a string. *)
Definition join_lines (lines : list json) : result string :=
  strs ← mapM as_str lines; Ok (join (String "010" "") strs).

Definition generate_markdown_for_version (data : json) : result string :=
  version ← get data "version" (JStr "Unknown");
  date ← get data "date" (JStr "Unknown");
  summary ← get data "summary" (JStr "");
  let head :=
    [JStr ("## " +:+ fmt version); JStr "";
     JStr ("**Release Date:** " +:+ fmt date); JStr ""]
    ++ (if truthy summary then [summary; JStr ""] else []) in
  highlights ← get data "highlights" (JArr []);
  highlight_lines ←
    (if truthy highlights
     then items ← py_iter highlights;
          Ok ([JStr "### Highlights"; JStr ""]
              ++ ((λ h, JStr ("- " +:+ fmt h)) <$> items) ++ [JStr ""])
     else Ok []);
  changes ← get data "changes" (JObj []);
  change_lines ← mapM (render_category changes) category_order;
  components ← get data "components" (JArr []);
  component_lines ←
    (if truthy components
     then joined ← py_join ", " components;
          Ok [JStr "### Affected Components"; JStr ""; JStr joined; JStr ""]
     else Ok []);
  notes ← get data "notes" (JStr "");
  let note_lines :=
    if truthy notes then [JStr "### Notes"; JStr ""; notes; JStr ""] else [] in
  join_lines (head ++ highlight_lines ++ concat change_lines
                   ++ component_lines ++ note_lines).

(** The sort key [[int(x) for x in v.split(".")]]. *)
Definition version_key (v : string) : result (list Z) :=
  mapM (λ x, match py_int x with
             | Some n => Ok n
             | None => Raise ValueError
             end)
       (split "." v).

(** [a < b] on lists of integers. *)
Fixpoint key_ltb (a b : list Z) : bool :=
  match a, b with
  | [], [] => false
  | [], _ :: _ => true
  | _ :: _, [] => false
  | x :: a', y :: b' =>
      if (x <? y)%Z then true
      else if (y <? x)%Z then false
      else key_ltb a' b'
  end.

(** [sorted(..., reverse=True)] on items that carry their key: descending,
    and items with equal keys stay in their original order. *)
Fixpoint insert_desc (x : list Z * string) (l : list (list Z * string))
    : list (list Z * string) :=
  match l with
  | [] => [x]
  | y :: l' => if key_ltb x.1 y.1 then y :: insert_desc x l' else x :: l
  end.

Definition sort_desc (l : list (list Z * string)) : list (list Z * string) :=
  foldr insert_desc [] l.

(** [sorted(existing, key=lambda v: [int(x) for x in v.split(".")],
    reverse=True)]: all keys are computed first. *)
Definition sorted_versions (existing : list string) : result (list string) :=
  keys ← mapM version_key existing;
  Ok (sort_desc (zip keys existing)).*2.

(** The warnings printed for a record with validation errors. *)
Definition validation_warnings (version : string) (errors : list string)
    : list message :=
  match errors with
  | [] => []
  | _ => Stderr ("Warning: Validation errors in " +:+ version +:+ ".json:")
         :: ((λ e, Stderr ("  - " +:+ e)) <$> errors)
  end.

(** The body of the loop over [to_generate]: what is printed, and the
    lines with the section of [version] appended. *)
Definition render_version (dir : notes_dir) (version : string)
    (lines : list string) : list message * result (list string) :=
  match load_release_notes dir version with
  | (l0, Raise e) => (l0, Raise e)
  | (l0, Ok None) => (l0, Ok lines)
  | (l0, Ok (Some data)) =>
      if truthy data then
        match validate_json data version with
        | Raise e => (l0, Raise e)
        | Ok errors =>
            let l1 := l0 ++ validation_warnings version errors in
            match generate_markdown_for_version data with
            | Raise e => (l1, Raise e)
            | Ok markdown => (l1, Ok (lines ++ [markdown; "---"; ""]))
            end
        end
      else (l0, Ok lines)
  end.

Fixpoint render_versions (dir : notes_dir) (to_generate : list string)
    (lines : list string) : list message * result (list string) :=
  match to_generate with
  | [] => ([], Ok lines)
  | version :: rest =>
      match render_version dir version lines with
      | (l0, Raise e) => (l0, Raise e)
      | (l0, Ok lines') =>
          let '(l1, r) := render_versions dir rest lines' in (l0 ++ l1, r)
      end
  end.

Definition header (now : string) : list string :=
  ["# Portunix Release Notes"; ""; "Generated: " +:+ now; ""; "---"; ""].

(** [generate_full_release_notes(versions)]; [now] is the time stamp put
    in the header. *)
Definition generate_full_release_notes (now : string) (dir : notes_dir)
    (versions : option (list string)) : list message * result string :=
  let existing := get_existing_json_versions dir in
  let chosen :=
    match versions with
    | Some (v :: vs) => Ok (filter (λ v, v ∈ existing) (v :: vs))
    | _ => sorted_versions (elements existing)
    end in
  match chosen with
  | Raise e => ([], Raise e)
  | Ok [] =>
      ([], Ok (join (String "010" "")
                    (header now ++ ["No release notes available."; ""])))
  | Ok to_generate =>
      match render_versions dir to_generate (header now) with
      | (l, Raise e) => (l, Raise e)
      | (l, Ok lines) => (l, Ok (join (String "010" "") lines))
      end
  end.

Definition missing_versions (git : git_listing) (dir : notes_dir)
    : list string :=
  filter (λ version, version ∉ get_existing_json_versions dir)
         (tag_to_version <$> (get_git_tags git).2).

Definition check_missing_notes (git : git_listing) (dir : notes_dir)
    (warn_only : bool) : list message * Z :=
  let l0 := (get_git_tags git).1 in
  match missing_versions git dir with
  | [] => (l0 ++ [Out "All versions have release notes JSON files."], 0%Z)
  | missing =>
      (l0 ++ [Out ((if warn_only then "Warning" else "Error")
                   +:+ ": Missing release notes for "
                   +:+ pretty (length missing) +:+ " version(s):")]
          ++ ((λ v, Out ("  - " +:+ v +:+ " (tag: v" +:+ v +:+ ")")) <$> missing)
          ++ [Out ""; Out "To generate missing release notes, run:";
              Out "  /cs:generate-release-notes"; Out ""],
       if warn_only then 0%Z else 1%Z)
  end.

Definition list_missing (git : git_listing) (dir : notes_dir) : list message :=
  (get_git_tags git).1
  ++ [Out "Versions without release notes JSON:"]
  ++ match missing_versions git dir with
     | [] => [Out "  (none - all versions have JSON files)"]
     | missing => (λ v, Out ("  " +:+ v)) <$> missing
     end.

(** The command line after [argparse]. *)
Record arguments : Type := Arguments {
  arg_check : bool;
  arg_warn_only : bool;
  arg_list_missing : bool;
  arg_version : option string
}.

(** [main]: what is printed, the exit status or the exception that ends
    the script, and the text written to the output file, if any. *)
Definition main (args : arguments) (git : git_listing) (now : string)
    (dir : notes_dir) : list message * result Z * option string :=
  let created :=
    match dir with
    | None => [Out "Creating release-notes directory"]
    | Some _ => []
    end in
  let dir' : notes_dir := Some (default ∅ dir) in
  if arg_list_missing args then (created ++ list_missing git dir', Ok 0%Z, None)
  else if arg_check args then
    let '(l, status) := check_missing_notes git dir' (arg_warn_only args) in
    (created ++ l, Ok status, None)
  else
    let versions :=
      match arg_version args with
      | Some v => if String.eqb v "" then None else Some [v]
      | None => None
      end in
    match generate_full_release_notes now dir' versions with
    | (l, Raise e) => (created ++ l, Raise e, None)
    | (l, Ok content) =>
        (created ++ l ++ [Out "Generated: RELEASE-NOTES.md"], Ok 0%Z, Some content)
    end.

End Formatting.

End CollectReleaseNotes.
(* ================================================================== *)
(** * Properties *)

(** ** Version validation *)
Module VersionFacts.
Import MakeRelease.

(** A non-empty run of decimal digits. *)
Fixpoint all_digits (s : string) : bool :=
  match s with
  | EmptyString => true
  | String c s' => is_digit c && all_digits s'
  end.

Definition is_number (s : string) : bool :=
  match s with
  | EmptyString => false
  | _ => all_digits s
  end.

(** The text [vMAJOR.MINOR.PATCH], optionally followed by [-SNAPSHOT], and
    optionally by one final newline (which [$] tolerates). *)
Definition version_text (major minor patch : string)
    (snapshot newline : bool) : string :=
  "v" +:+ major +:+ "." +:+ minor +:+ "." +:+ patch
      +:+ (if snapshot then "-SNAPSHOT" else "")
      +:+ (if newline then String "010"%char "" else "").



End VersionFacts.


(** ** Directory trees and archives *)
Module TreeFacts.

(** A tree is well formed when the root is not a key and whatever it names
    lies in a directory it also names. *)
Definition wf (t : tree) : Prop :=
  t !! [] = None ∧
  ∀ p c, is_Some (t !! (p ++ [c])) → lookup_node t p = Some Dir.

(** The tree an archive unpacks to. *)
Definition unpacked (a : fdata) : option tree :=
  match a with
  | Packed _ members =>
      match extractall members ∅ with
      | Ok t => Some t
      | Raise _ => None
      end
  | Bytes _ => None
  end.

(** The data of the regular file at [p] in archive [a], if there is one. *)
Definition archive_file (a : fdata) (p : path) : option fdata :=
  t ← unpacked a; n ← t !! p; file_data n.

(** The names of the members of an archive. *)
Definition member_names (a : fdata) : list path :=
  match a with
  | Packed _ members => members.*1
  | Bytes _ => []
  end.

End TreeFacts.

(** ** Injection of platform archives *)
Module InjectFacts.
Import MakeRelease TreeFacts.

(** The data of the regular file at [p] inside release archive [name] of
    [dist/], if the archive unpacks and has such a file. *)
Definition release_file (d : dist_dir) (name : string) (p : path)
    : option fdata :=
  match d !! name with
  | Some (RegFile a) => archive_file a p
  | _ => None
  end.

(** The member names of release archive [name]. *)
Definition release_members (d : dist_dir) (name : string) : list path :=
  match d !! name with
  | Some (RegFile a) => member_names a
  | _ => []
  end.

(** [p] is where injection puts one of the platform archives. *)
Definition injected_path (d : dist_dir) (p : path) : Prop :=
  ∃ n, n ∈ (platform_archives d).*1 ∧ p = ["platforms"; n].

(** [dist/] after injection has run on [d]. *)
Definition injected (d : dist_dir) : dist_dir :=
  final (inject_platform_archives d).

(** Sample data: a [dist/] with two release archives and two platform
    archives. *)
Definition linux_release : string := "portunix_1.0.0_linux_amd64.tar.gz".
Definition windows_release : string := "portunix_1.0.0_windows_amd64.zip".

Definition sample_platforms : gmap string (node fdata) :=
  <["linux-amd64.tar.gz" := File (Packed TarGz [(["portunix"], File (Bytes "ELF"))])]>
 (<["windows-amd64.zip" := File (Packed Zip [(["portunix.exe"], File (Bytes "MZ"))])]>
 (<["linux-amd64" := Dir]> ∅)).

Definition sample_dist : dist_dir :=
  <["platforms" := SubDir sample_platforms]>
 (<[linux_release :=
      RegFile (Packed TarGz [(["portunix"], File (Bytes "ELF"));
                             (["docs"; "README.md"], File (Bytes "readme"))])]>
 (<[windows_release :=
      RegFile (Packed Zip [(["portunix.exe"], File (Bytes "MZ"))])]> ∅)).

(** The same, after an earlier run left another copy of a platform archive
    in the linux release archive. *)
Definition stale_dist : dist_dir :=
  <[linux_release :=
      RegFile (Packed TarGz [(["portunix"], File (Bytes "ELF"));
                             (["platforms"; "linux-amd64.tar.gz"],
                              File (Bytes "older build"))])]> sample_dist.


(** A [dist/] whose [platforms/] directory exists and is empty. *)
Definition empty_platforms_dist : dist_dir :=
  <["platforms" := SubDir ∅]>
 (<[linux_release :=
      RegFile (Packed TarGz [(["portunix"], File (Bytes "ELF"))])]> ∅).

(** A [dist/] without a [platforms/] directory. *)
Definition no_platforms_dist : dist_dir := delete "platforms" sample_dist.

End InjectFacts.

(** ** The build stage *)
Module BuildFacts.
Import MakeRelease.

(** The state in which the build tool is started: [dist/] removed and the
    tag set. *)
Definition tagged (version : string) (w : world) : world :=
  World ({[version]} ∪ tags (git_tag_delete version (World (tags w) None)).1)
        None.

End BuildFacts.

(** ** The platform archive builder *)
Module BuilderFacts.
Import CreatePlatformArchives.

(** How one platform fares, read off the file system the loop finds it in. *)
Inductive platform_result : Type :=
| SkippedMissing   (* the sub-directory is not there *)
| SkippedEmpty     (* the sub-directory has no entries *)
| WriteFailed      (* the archive cannot be written *)
| Created.

Definition archive_path (output_dir : path) (platform : string) : path :=
  output_dir ++ [(get_archive_info platform).1].

Definition classify (platforms_dir output_dir : path) (platform : string)
    (fs : tree) : platform_result :=
  match lookup_node fs (platforms_dir ++ [platform]) with
  | Some Dir =>
      match iterdir fs (platforms_dir ++ [platform]) with
      | [] => SkippedEmpty
      | _ :: _ =>
          if is_ok (write_file fs (archive_path output_dir platform) (Bytes ""))
          then Created else WriteFailed
      end
  | _ => SkippedMissing
  end.

(** The file system after one platform has been handled. *)
Definition after_platform (platforms_dir output_dir : path)
    (platform : string) (fs : tree) : tree :=
  (create_platform_archive platforms_dir output_dir platform fs).1.1.

(** The results for a list of platforms handled one after the other. *)
Fixpoint platform_results (platforms_dir output_dir : path)
    (platforms : list string) (fs : tree) : list platform_result :=
  match platforms with
  | [] => []
  | platform :: rest =>
      classify platforms_dir output_dir platform fs
      :: platform_results platforms_dir output_dir rest
           (after_platform platforms_dir output_dir platform fs)
  end.

Definition is_created (r : platform_result) : bool :=
  match r with Created => true | _ => false end.

Definition is_skipped (r : platform_result) : bool :=
  match r with SkippedMissing | SkippedEmpty => true | _ => false end.

Definition is_failed (r : platform_result) : bool :=
  match r with WriteFailed => true | _ => false end.

Definition how_many {A : Type} (f : A → bool) (l : list A) : Z :=
  Z.of_nat (length (filter (λ x, f x = true) l)).

(** Sample data: only [linux-amd64] has been built. *)
Definition only_linux : tree :=
  <[["dist"; "platforms"; "linux-amd64"; "portunix"] := File (Bytes "ELF")]>
 (<[["dist"; "platforms"; "linux-amd64"] := Dir]>
 (<[["dist"; "platforms"; "windows-amd64"] := Dir]>
 (<[["dist"; "platforms"] := Dir]>
 (<[["dist"] := Dir]> ∅)))).

(** Sample data: nothing has been built. *)
Definition nothing_built : tree :=
  <[["dist"; "platforms"; "linux-amd64"] := Dir]>
 (<[["dist"; "platforms"] := Dir]>
 (<[["dist"] := Dir]> ∅)).

(** Sample data: the place of the linux archive is taken by a directory. *)
Definition blocked_output : tree :=
  <[["dist"; "platforms"; "linux-amd64.tar.gz"] := Dir]>
 (<[["dist"; "platforms"; "windows-amd64"; "portunix.exe"] := File (Bytes "MZ")]>
  only_linux).

End BuilderFacts.

(** ** Release notes *)
Module NotesFacts.
Import CollectReleaseNotes.


(** The same on items that carry their key. *)
Definition key_geb_pair (x y : list Z * string) : Prop :=
  key_ltb x.1 y.1 = false.

(** Every dot-separated piece of [v] is accepted by [int()]. *)
Definition parses (v : string) : bool := is_ok (version_key v).

(** Every dot-separated piece of [v] is a non-empty run of the digits
    [0]-[9]. *)
Definition numeric_stem (v : string) : bool :=
  forallb VersionFacts.is_number (split "." v).


(** The record of [v] loads as a non-empty value that [validate_json] and
    [generate_markdown_for_version] handle without an exception. *)
Definition renderable (py_format : json → string) (dir : notes_dir)
    (v : string) : bool :=
  match (load_release_notes dir v).2 with
  | Ok (Some data) =>
      truthy data && is_ok (validate_json py_format data v)
      && is_ok (generate_markdown_for_version py_format data)
  | _ => false
  end.

Definition markdown_of (py_format : json → string) (dir : notes_dir)
    (v : string) : string :=
  match (load_release_notes dir v).2 with
  | Ok (Some data) =>
      match generate_markdown_for_version py_format data with
      | Ok markdown => markdown
      | Raise _ => ""
      end
  | _ => ""
  end.

(** The lines of the document that render the versions [order]. *)
Definition sections (py_format : json → string) (dir : notes_dir)
    (order : list string) : list string :=
  match order with
  | [] => ["No release notes available."; ""]
  | _ => order ≫= (λ v, [markdown_of py_format dir v; "---"; ""])
  end.

Definition document (py_format : json → string) (now : string)
    (dir : notes_dir) (order : list string) : string :=
  join (String "010" "") (header now ++ sections py_format dir order).

(** A stand-in for [str()] on values that are not strings. *)
Definition simple_format (j : json) : string :=
  match j with
  | JNull => "None"
  | JBool true => "True"
  | JBool false => "False"
  | JNum _ text => text
  | _ => "..."
  end.

Definition record (version : string) : json :=
  JObj [("version", JStr version); ("date", JStr "2026-01-15");
        ("tag", JStr ("v" +:+ version));
        ("summary", JStr ("Release " +:+ version))].

(** Sample data: records for 1.9.0 and 1.10.0. *)
Definition two_records : notes_dir :=
  Some (<["1.9.0.json" := JsonFile (record "1.9.0")]>
       (<["1.10.0.json" := JsonFile (record "1.10.0")]>
       (<["_schema.json" := JsonFile (JObj [])]> ∅))).


(** Sample data: a record file for a snapshot among the others. *)
Definition snapshot_record : notes_dir :=
  Some (<["1.8.0-SNAPSHOT.json" := JsonFile (record "1.8.0-SNAPSHOT")]>
       (<["1.7.0.json" := JsonFile (record "1.7.0")]> ∅)).

(** Sample data: a file name with an underscore between digits. *)
Definition underscore_record : notes_dir :=
  Some (<["1_0.0.0.json" := JsonFile (record "1_0.0.0")]> ∅).

End NotesFacts.

(** ** Strings *)
Module StringFacts.

(** The character [c] does not occur in [s]. *)
Definition no_char (c : ascii) (s : string) : bool :=
  all_chars (λ x, negb (Ascii.eqb x c)) s.

End StringFacts.

Module EnvironmentFacts.
Import MakeRelease.

(** Sample data: GoReleaser is installed in the home directory only. *)
Definition home_install : environment :=
  Environment
    (Completed 0 ("go version go1.22.1 linux/amd64" +:+ String "010" "") "")
    Unlaunched
    "/home/dev/go/bin/goreleaser"
    (Completed 0 ("goreleaser version 1.24.0" +:+ String "010" "commit: 0000") "")
    (Completed 0 (".git" +:+ String "010" "") "")
    true.

(** Sample data: everything is installed, but [.goreleaser.yml] is missing. *)
Definition no_config : environment :=
  Environment
    (go_version home_install)
    (goreleaser_in_home home_install)
    (home_goreleaser home_install)
    Unlaunched
    (git_rev_parse home_install)
    false.

(** Sample data: [go version] prints one word only. *)
Definition terse_go : environment :=
  Environment
    (Completed 0 "go1.22" "")
    (goreleaser_in_home home_install)
    (home_goreleaser home_install)
    Unlaunched
    (git_rev_parse home_install)
    true.

End EnvironmentFacts.
Module VersionProofs.
Import MakeRelease VersionFacts.

Lemma strip_spec (l s r : string) : Re.strip l s = Some r ↔ s = l +:+ r.
Proof.
  revert s. induction l as [|a l IH]; intros s; simpl.
  - split; [intros [= ->]; reflexivity | intros ->; reflexivity].
  - destruct s as [|b s]; [split; discriminate|].
    destruct (Ascii.eqb_spec a b) as [->|Hne].
    + rewrite IH. split; [intros ->; reflexivity | intros [= ->]; reflexivity].
    + split; [discriminate | intros [= ? _]; congruence].
Qed.

Lemma is_number_cons (c : ascii) (s : string) :
  is_number (String c s) = is_digit c && all_digits s.
Proof. reflexivity. Qed.

Lemma digits1_spec (s : string) (k : string → bool) :
  Re.digits1 s k = true ↔
  ∃ d r, s = d +:+ r ∧ is_number d = true ∧ k r = true.
Proof.
  induction s as [|c s IH]; simpl.
  - split; [discriminate|].
    intros (d & r & Hs & Hd & _). destruct d; simpl in *; discriminate.
  - destruct (is_digit c) eqn:Hc.
    + rewrite orb_true_iff, IH. split.
      * intros [(d & r & -> & Hd & Hk)|Hk].
        -- exists (String c d), r. repeat split; [|done].
           rewrite is_number_cons, Hc. destruct d; [discriminate|exact Hd].
        -- exists (String c ""), s. rewrite is_number_cons, Hc. done.
      * intros (d & r & Hs & Hd & Hk).
        destruct d as [|c' d]; [discriminate|]. injection Hs as <- ->.
        rewrite is_number_cons in Hd. apply andb_true_iff in Hd as [_ Hd].
        destruct d as [|c'' d]; [right; exact Hk|].
        left. exists (String c'' d), r. done.
    + split; [discriminate|].
      intros (d & r & Hs & Hd & _).
      destruct d as [|c' d]; [discriminate|]. injection Hs as <- ->.
      rewrite is_number_cons, Hc in Hd. discriminate.
Qed.

Lemma at_dollar_spec (s : string) :
  Re.at_dollar s = true ↔ s = "" ∨ s = String "010"%char "".
Proof.
  destruct s as [|c [|c' s]]; simpl.
  - split; [left; reflexivity | reflexivity].
  - destruct (Ascii.eqb_spec c "010"%char) as [->|Hne].
    + split; [right; reflexivity | reflexivity].
    + split; [discriminate | intros [|[= ?]]; [discriminate | congruence]].
  - split; [discriminate | intros [|]; discriminate].
Qed.

(** The tail of the pattern after the third number: [(-SNAPSHOT)?$]. *)
Lemma suffix_spec (b : bool) (s : string) :
  Re.run (Re.Cat (Re.Optional (Re.Lit "-SNAPSHOT")) Re.Dollar) b s (λ _ _, true)
    = true ↔
  ∃ snapshot newline : bool,
    s = (if snapshot then "-SNAPSHOT" else "")
          +:+ (if newline then String "010"%char "" else "").
Proof.
  cbn [Re.run]. rewrite orb_true_iff. split.
  - intros [H|H].
    + destruct (Re.strip "-SNAPSHOT" s) as [r|] eqn:Hr; [|discriminate].
      apply strip_spec in Hr as ->.
      rewrite andb_true_r in H. apply at_dollar_spec in H as [->| ->].
      * by exists true, false.
      * by exists true, true.
    + rewrite andb_true_r in H. apply at_dollar_spec in H as [->| ->].
      * by exists false, false.
      * by exists false, true.
  - intros (snapshot & newline & ->).
    destruct snapshot, newline; vm_compute; auto.
Qed.

Lemma validate_version_shape (s : string) :
  validate_version s = true ↔
  ∃ major minor patch snapshot newline,
    is_number major = true ∧ is_number minor = true ∧ is_number patch = true ∧
    s = version_text major minor patch snapshot newline.
Proof.
  unfold validate_version, Re.matches, version_pattern, version_text.
  cbn [Re.run andb]. split.
  - destruct (Re.strip "v" s) as [s1|] eqn:H1; [|discriminate].
    apply strip_spec in H1 as ->.
    intros (major & s2 & -> & Hmaj & H)%digits1_spec.
    destruct (Re.strip "." s2) as [s3|] eqn:H3; [|discriminate].
    apply strip_spec in H3 as ->.
    apply digits1_spec in H as (minor & s4 & -> & Hmin & H).
    destruct (Re.strip "." s4) as [s5|] eqn:H5; [|discriminate].
    apply strip_spec in H5 as ->.
    apply digits1_spec in H as (patch & s6 & -> & Hpat & H).
    apply (suffix_spec false) in H as (snapshot & newline & ->).
    exists major, minor, patch, snapshot, newline.
    repeat split; try done.
  - intros (major & minor & patch & snapshot & newline & Hmaj & Hmin & Hpat & ->).
    cbn [String.append Re.strip Ascii.eqb Bool.eqb].
    apply digits1_spec. exists major. eexists. split; [reflexivity|].
    split; [exact Hmaj|].
    cbn [String.append Re.strip Ascii.eqb Bool.eqb].
    apply digits1_spec. exists minor. eexists. split; [reflexivity|].
    split; [exact Hmin|].
    cbn [String.append Re.strip Ascii.eqb Bool.eqb].
    apply digits1_spec. exists patch. eexists. split; [reflexivity|].
    split; [exact Hpat|].
    apply (suffix_spec false). by exists snapshot, newline.
Qed.

Lemma validate_version_examples :
  validate_version "v1.2.3" = true ∧
  validate_version "v1.2.3-SNAPSHOT" = true ∧
  validate_version "1.2.3" = false ∧
  validate_version "v1.2" = false ∧
  validate_version "version1" = false.
Proof. vm_compute. done. Qed.




End VersionProofs.

Module TreeProofs.
Import TreeFacts.

Lemma lookup_node_snoc (t : tree) (p : path) (c : string) :
  lookup_node t (p ++ [c]) = t !! (p ++ [c]).
Proof. destruct p; reflexivity. Qed.

Lemma lookup_node_nonroot (t : tree) (p : path) :
  p ≠ [] → lookup_node t p = t !! p.
Proof. destruct p; [done | reflexivity]. Qed.

Lemma path_snoc (p : path) : p ≠ [] → ∃ c, p = removelast p ++ [c].
Proof. intros H. exists (List.last p ""). by apply app_removelast_last. Qed.

Lemma snoc_ne_self (p : path) (c : string) : p ≠ p ++ [c].
Proof.
  intros H. apply (f_equal length) in H. rewrite length_app in H.
  simpl in H. lia.
Qed.

Lemma wf_empty : wf ∅.
Proof.
  split; [apply lookup_empty|].
  intros p c [n Hn]. by rewrite lookup_empty in Hn.
Qed.

Lemma wf_root_dir (t : tree) (n : node fdata) :
  wf t → lookup_node t [] = Some n → n = Dir.
Proof. intros _ [= <-]. reflexivity. Qed.

(** Adding or replacing a node keeps the tree well formed when its parent
    is a directory and no directory is turned into a file. *)
Lemma wf_insert (t : tree) (parent : path) (c : string) (n : node fdata) :
  wf t →
  lookup_node t parent = Some Dir →
  n = Dir ∨ t !! (parent ++ [c]) ≠ Some Dir →
  wf (<[parent ++ [c] := n]> t).
Proof.
  intros [Hroot Hpar] Hp Hn. split.
  - rewrite lookup_insert_ne; [done | by destruct parent].
  - intros q c' Hq.
    destruct (decide (q ++ [c'] = parent ++ [c])) as [Heq|Hne].
    + apply app_inj_tail in Heq as [-> ->].
      destruct parent as [|x parent]; [reflexivity|].
      cbn [lookup_node]. rewrite lookup_insert_ne; [exact Hp|].
      intros Heq. by apply (snoc_ne_self (x :: parent) c).
    + rewrite lookup_insert_ne in Hq by done.
      specialize (Hpar q c' Hq).
      destruct q as [|x q]; [reflexivity|].
      cbn [lookup_node] in *.
      destruct (decide (parent ++ [c] = x :: q)) as [Heq|Hne'].
      * rewrite Heq, lookup_insert_eq.
        destruct Hn as [->|Hn]; [reflexivity|].
        rewrite Heq in Hn. contradiction.
      * by rewrite lookup_insert_ne.
Qed.

Lemma bind_ok {A B : Type} (m : result A) (f : A → result B) (b : B) :
  (m ≫= f) = Ok b ↔ ∃ a, m = Ok a ∧ f a = Ok b.
Proof.
  destruct m as [a|e]; simpl.
  - split; [intros H; by exists a | intros (a' & [= <-] & H); exact H].
  - split; [discriminate | intros (a' & [=] & _)].
Qed.

Lemma makedirs_from_subseteq (rest base : path) (t t' : tree) :
  makedirs_from t base rest = Ok t' → t ⊆ t'.
Proof.
  revert base t. induction rest as [|c rest IH]; intros base t; simpl.
  - by intros [= ->].
  - destruct (t !! (base ++ [c])) as [[d|]|] eqn:Hc; [discriminate| |].
    + apply IH.
    + intros H%IH. etrans; [|exact H]. by apply insert_subseteq.
Qed.

Lemma makedirs_from_wf (rest base : path) (t t' : tree) :
  wf t → lookup_node t base = Some Dir →
  makedirs_from t base rest = Ok t' →
  wf t' ∧ lookup_node t' (base ++ rest) = Some Dir.
Proof.
  revert base t. induction rest as [|c rest IH]; intros base t Hwf Hbase; simpl.
  - intros [= <-]. by rewrite app_nil_r.
  - rewrite (cons_middle c base rest), app_assoc.
    destruct (t !! (base ++ [c])) as [[d|]|] eqn:Hc; [discriminate| |].
    + apply IH; [done|]. by rewrite lookup_node_snoc.
    + apply IH.
      * apply wf_insert; auto.
      * by rewrite lookup_node_snoc, lookup_insert_eq.
Qed.

Lemma mkdir_exist_ok_spec (t t' : tree) (p : path) :
  wf t → mkdir_exist_ok t p = Ok t' →
  wf t' ∧ lookup_node t' p = Some Dir ∧ t ⊆ t' ∧
  ∀ q, q ≠ p → t' !! q = t !! q.
Proof.
  intros Hwf. unfold mkdir_exist_ok.
  destruct (lookup_node t p) as [[d|]|] eqn:Hp; [discriminate| |].
  - intros [= <-]. done.
  - assert (p ≠ []) as Hne by (intros ->; discriminate).
    destruct (path_snoc p Hne) as [c Hc].
    remember (removelast p) as parent eqn:Hparent. clear Hparent. subst p.
    rewrite lookup_node_snoc in Hp.
    destruct (lookup_node t parent) as [[d|]|] eqn:Hpar; [discriminate| |discriminate].
    intros [= <-]. repeat split.
    + apply wf_insert; auto.
    + apply wf_insert; auto.
    + by rewrite lookup_node_snoc, lookup_insert_eq.
    + by apply insert_subseteq.
    + intros q Hq. by rewrite lookup_insert_ne.
Qed.

Lemma write_file_spec (t t' : tree) (p : path) (d : fdata) :
  write_file t p d = Ok t' →
  p ≠ [] ∧ t' = <[p := File d]> t ∧
  lookup_node t (removelast p) = Some Dir ∧ t !! p ≠ Some Dir.
Proof.
  unfold write_file. intros H.
  assert (p ≠ []) as Hne by (intros ->; discriminate).
  split; [done|]. rewrite (lookup_node_nonroot _ _ Hne) in H.
  destruct (lookup_node t (removelast p)) as [[d'|]|] eqn:Hpar;
    destruct (t !! p) as [[d''|]|] eqn:Hp; try discriminate;
    injection H as <-; done.
Qed.

Lemma write_file_wf (t t' : tree) (p : path) (d : fdata) :
  wf t → write_file t p d = Ok t' → wf t'.
Proof.
  intros Hwf (Hne & -> & Hpar & Hp)%write_file_spec.
  destruct (path_snoc p Hne) as [c Hc].
  remember (removelast p) as parent eqn:Hparent. clear Hparent. subst p.
  apply wf_insert; auto.
Qed.

Lemma extract_member_wf (t t' : tree) (p : path) (n : node fdata) :
  wf t → extract_member t p n = Ok t' → wf t'.
Proof.
  intros Hwf. unfold extract_member.
  intros (t1 & H1 & H2)%bind_ok.
  apply makedirs_from_wf in H1 as [Hwf1 _]; [|done..].
  destruct n as [d|].
  - by eapply write_file_wf.
  - by eapply mkdir_exist_ok_spec.
Qed.

Lemma extractall_wf (members : list (path * node fdata)) (t t' : tree) :
  wf t → extractall members t = Ok t' → wf t'.
Proof.
  revert t. induction members as [|[p n] members IH]; intros t Hwf; simpl.
  - by intros [= <-].
  - intros (t1 & H1 & H2)%bind_ok.
    eapply IH; [|exact H2]. by eapply extract_member_wf.
Qed.

(** *** Replaying an archive inside a tree that already has its members *)

Lemma wf_ancestors (t : tree) (p q : path) :
  wf t → q ≠ [] → is_Some (t !! (p ++ q)) → lookup_node t p = Some Dir.
Proof.
  intros Hwf. induction q as [|c q IH] using rev_ind; [done|].
  intros _ Hq. rewrite app_assoc in Hq. apply Hwf in Hq.
  destruct (decide (q = [])) as [->|Hne]; [by rewrite app_nil_r in Hq|].
  apply IH; [done|]. rewrite lookup_node_nonroot in Hq; [by rewrite Hq|].
  intros [_ ->]%app_eq_nil. done.
Qed.

Lemma subseteq_insert_same (a : tree) (p : path) (n : node fdata) :
  a !! p = None ∨ a !! p = Some n → a ⊆ <[p := n]> a.
Proof.
  intros [H|H]; [by apply insert_subseteq|]. by rewrite insert_id.
Qed.

Lemma subseteq_lookup_cases (a T : tree) (p : path) (n : node fdata) :
  a ⊆ T → T !! p = Some n → a !! p = None ∨ a !! p = Some n.
Proof.
  intros Hsub HT. destruct (a !! p) as [m|] eqn:Ha; [|by left].
  right. eapply lookup_weaken in Ha; [|exact Hsub]. congruence.
Qed.

Lemma makedirs_from_within (T : tree) (rest base : path) (a : tree) :
  (∀ pre suf, rest = pre ++ suf → pre ≠ [] → T !! (base ++ pre) = Some Dir) →
  a ⊆ T →
  ∃ a', makedirs_from a base rest = Ok a' ∧ a' ⊆ T.
Proof.
  revert base a. induction rest as [|c rest IH]; intros base a Hdirs Hsub; simpl.
  - by exists a.
  - assert (T !! (base ++ [c]) = Some Dir) as Hc by (by apply (Hdirs [c] rest)).
    assert (∀ pre suf, rest = pre ++ suf → pre ≠ [] →
            T !! ((base ++ [c]) ++ pre) = Some Dir) as Hdirs'.
    { intros pre suf -> Hpre. rewrite <- app_assoc.
      by apply (Hdirs (c :: pre) suf). }
    destruct (subseteq_lookup_cases a T _ _ Hsub Hc) as [Ha|Ha]; rewrite Ha.
    + apply IH; [done|]. by apply insert_subseteq_l.
    + by apply IH.
Qed.

Lemma extract_member_within (T a : tree) (p : path) (n : node fdata) :
  wf T → wf a → a ⊆ T → T !! p = Some n →
  ∃ a', extract_member a p n = Ok a' ∧ wf a' ∧ a ⊆ a' ∧ a' ⊆ T ∧
        a' !! p = Some n.
Proof.
  intros HwfT Hwfa Hsub Hp.
  assert (p ≠ []) as Hne.
  { intros ->. destruct HwfT as [Hroot _]. congruence. }
  destruct (makedirs_from_within T (removelast p) [] a) as (a1 & H1 & Hsub1);
    [|done|].
  { intros pre suf Hsplit Hpre. simpl.
    rewrite <- (lookup_node_nonroot T pre Hpre).
    destruct (path_snoc p Hne) as [c Hc].
    apply (wf_ancestors T pre (suf ++ [c])); [done|by destruct suf|].
    rewrite app_assoc, <- Hsplit, <- Hc, Hp. by eexists. }
  pose proof (makedirs_from_subseteq _ _ _ _ H1) as Hsub01.
  apply makedirs_from_wf in H1 as Hwf1; [|done..]. destruct Hwf1 as [Hwf1 Hpar].
  simpl in Hpar.
  assert (extract_member a p n =
          match n with Dir => mkdir_exist_ok a1 p | File d => write_file a1 p d end)
    as ->.
  { unfold extract_member, makedirs. by rewrite H1. }
  pose proof (subseteq_lookup_cases a1 T p n Hsub1 Hp) as Hcases.
  destruct n as [d|].
  - exists (<[p := File d]> a1). split; [|split_and!].
    + unfold write_file. rewrite (lookup_node_nonroot _ _ Hne), Hpar.
      destruct Hcases as [-> | ->]; reflexivity.
    + eapply (write_file_wf a1 _ p d); [done|].
      unfold write_file. rewrite (lookup_node_nonroot _ _ Hne), Hpar.
      destruct Hcases as [-> | ->]; reflexivity.
    + etrans; [exact Hsub01|]. by apply subseteq_insert_same.
    + by apply insert_subseteq_l.
    + apply lookup_insert_eq.
  - destruct Hcases as [Hnone|Hdir].
    + exists (<[p := Dir]> a1).
      assert (mkdir_exist_ok a1 p = Ok (<[p := Dir]> a1)) as Hmk.
      { unfold mkdir_exist_ok.
        by rewrite (lookup_node_nonroot _ _ Hne), Hnone, Hpar. }
      split; [exact Hmk|]. split_and!.
      * by eapply mkdir_exist_ok_spec.
      * etrans; [exact Hsub01|]. by apply insert_subseteq.
      * by apply insert_subseteq_l.
      * apply lookup_insert_eq.
    + exists a1. unfold mkdir_exist_ok.
      by rewrite (lookup_node_nonroot _ _ Hne), Hdir.
Qed.

Lemma extractall_within (T : tree) (members : list (path * node fdata))
    (a : tree) :
  wf T → wf a → a ⊆ T →
  (∀ p n, (p, n) ∈ members → T !! p = Some n) →
  ∃ a', extractall members a = Ok a' ∧ wf a' ∧ a ⊆ a' ∧ a' ⊆ T ∧
        ∀ p n, (p, n) ∈ members → a' !! p = Some n.
Proof.
  intros HwfT. revert a.
  induction members as [|[p n] members IH]; intros a Hwfa Hsub Hin; simpl.
  - exists a. split_and!; try done. intros p n H. by apply elem_of_nil in H.
  - destruct (extract_member_within T a p n) as (a1 & H1 & Hwf1 & Hsub1 & Hsub1T & Hp);
      [done|done|done|apply Hin; left|].
    destruct (IH a1) as (a' & H2 & Hwf' & Hsub' & Hsub'T & Hall);
      [done|done|intros q m Hq; apply Hin; by right|].
    exists a'. rewrite H1. simpl. split_and!; try done.
    + by etrans.
    + intros q m [[= -> ->]|Hq]%elem_of_cons; [|by apply Hall].
      by eapply lookup_weaken.
Qed.

Lemma walk_in_tree (fmt : archive_format) (t : tree) (p : path)
    (n : node fdata) :
  (p, n) ∈ walk fmt t → t !! p = Some n.
Proof.
  destruct fmt; simpl.
  - unfold walk_all. by intros ?%elem_of_map_to_list.
  - unfold walk_files. intros ([q d] & [= -> ->] & H)%list_elem_of_fmap.
    apply elem_of_map_to_list in H. rewrite lookup_omap in H.
    destruct (t !! q) as [[d'|]|]; simpl in H; congruence.
Qed.

Lemma walk_has_files (fmt : archive_format) (t : tree) (p : path)
    (d : fdata) :
  t !! p = Some (File d) → (p, File d) ∈ walk fmt t.
Proof.
  intros Hp. destruct fmt; simpl.
  - unfold walk_all. by apply elem_of_map_to_list.
  - unfold walk_files. apply list_elem_of_fmap. exists (p, d). split; [done|].
    apply elem_of_map_to_list. by rewrite lookup_omap, Hp.
Qed.

Lemma walk_names_nodup (fmt : archive_format) (t : tree) :
  NoDup (walk fmt t).*1.
Proof.
  destruct fmt; simpl.
  - apply NoDup_fst_map_to_list.
  - unfold walk_files. rewrite <- list_fmap_compose.
    apply (NoDup_fst_map_to_list (omap file_data t)).
Qed.

(** Unpacking what [pack] wrote gives back the files of the tree, and
    nothing that was not in the tree. *)
Lemma unpack_pack (fmt : archive_format) (t : tree) :
  wf t →
  ∃ t', extractall (walk fmt t) ∅ = Ok t' ∧ wf t' ∧ t' ⊆ t ∧
        ∀ p d, t !! p = Some (File d) → t' !! p = Some (File d).
Proof.
  intros Hwf.
  destruct (extractall_within t (walk fmt t) ∅) as (t' & H & Hwf' & _ & Hsub & Hall);
    [done|apply wf_empty|apply map_empty_subseteq|apply walk_in_tree|].
  exists t'. split_and!; try done.
  intros p d Hp. apply Hall. by apply walk_has_files.
Qed.

Lemma archive_file_pack (fmt : archive_format) (t : tree) (p : path) :
  wf t → archive_file (pack fmt t) p = t !! p ≫= file_data.
Proof.
  intros Hwf. destruct (unpack_pack fmt t Hwf) as (t' & H & _ & Hsub & Hfiles).
  unfold archive_file, pack, unpacked. rewrite H. simpl.
  destruct (t !! p) as [[d|]|] eqn:Hp; simpl.
  - by rewrite (Hfiles p d Hp).
  - destruct (t' !! p) as [n|] eqn:Hp'; [|done].
    eapply lookup_weaken in Hp'; [|exact Hsub]. by simplify_eq.
  - destruct (t' !! p) as [n|] eqn:Hp'; [|done].
    eapply lookup_weaken in Hp'; [|exact Hsub]. by simplify_eq.
Qed.

End TreeProofs.

Module InjectProofs.
Import MakeRelease TreeFacts TreeProofs InjectFacts.

Lemma glob_elem {X : Type} (pre suf : string) (m : gmap string X)
    (n : string) (x : X) :
  (n, x) ∈ glob pre suf m ↔ m !! n = Some x ∧ glob_match pre suf n = true.
Proof.
  unfold glob. rewrite list_elem_of_filter, elem_of_map_to_list. simpl. tauto.
Qed.

Lemma fst_filter_nodup {X : Type} (P : string * X → Prop)
    `{!∀ e, Decision (P e)} (l : list (string * X)) :
  NoDup l.*1 → NoDup (filter P l).*1.
Proof.
  induction l as [|e l IH]; [done|].
  rewrite fmap_cons, NoDup_cons. intros [Hnotin Hnd].
  rewrite filter_cons. destruct (decide (P e)); [|by apply IH].
  rewrite fmap_cons. apply NoDup_cons. split; [|by apply IH].
  intros ([n x] & Hn & Hin)%list_elem_of_fmap. apply Hnotin.
  apply list_elem_of_fmap. exists (n, x). split; [done|].
  by apply list_elem_of_filter in Hin as [_ Hin].
Qed.

Lemma glob_nodup {X : Type} (pre suf : string) (m : gmap string X) :
  NoDup (glob pre suf m).*1.
Proof. apply fst_filter_nodup, NoDup_fst_map_to_list. Qed.

Lemma glob_names_elem {X : Type} (pre suf : string) (m : gmap string X)
    (n : string) :
  n ∈ (glob pre suf m).*1 ↔ is_Some (m !! n) ∧ glob_match pre suf n = true.
Proof.
  rewrite list_elem_of_fmap. split.
  - intros ([n' x] & -> & [H1 H2]%glob_elem). split; [by eexists|done].
  - intros [[x Hx] Hm]. exists (n, x). split; [done|]. by apply glob_elem.
Qed.

Lemma endswith_targz_not_zip (n : string) :
  endswith ".tar.gz" n = true → endswith ".zip" n = true → False.
Proof.
  unfold endswith.
  change (String.rev ".tar.gz") with "zg.rat.".
  change (String.rev ".zip") with "piz.".
  destruct (String.rev n) as [|c r]; [discriminate|].
  cbn [String.prefix].
  destruct (ascii_dec "z" c) as [<-|]; [|discriminate].
  intros _. destruct (ascii_dec "p" "z"); discriminate.
Qed.

Lemma glob_targz_not_zip (pre pre' n : string) :
  glob_match pre ".tar.gz" n = true → glob_match pre' ".zip" n = true → False.
Proof.
  unfold glob_match.
  intros [[_ H1]%andb_true_iff _]%andb_true_iff [[_ H2]%andb_true_iff _]%andb_true_iff.
  by eapply endswith_targz_not_zip.
Qed.

Lemma globs_nodup {X : Type} (pre : string) (m : gmap string X) :
  NoDup (glob pre ".tar.gz" m ++ glob pre ".zip" m).*1.
Proof.
  rewrite fmap_app. apply NoDup_app. split_and!; try apply glob_nodup.
  intros n [_ H1]%glob_names_elem [_ H2]%glob_names_elem.
  by eapply glob_targz_not_zip.
Qed.

Lemma platform_archives_nodup (d : dist_dir) : NoDup (platform_archives d).*1.
Proof.
  unfold platform_archives.
  destruct (d !! "platforms") as [[a|children]|]; try apply NoDup_nil_2.
  apply globs_nodup.
Qed.

Lemma release_archives_nodup (d : dist_dir) : NoDup (release_archives d).
Proof. unfold release_archives. rewrite <- fmap_app. apply globs_nodup. Qed.

Lemma release_archives_elem (d : dist_dir) (n : string) :
  n ∈ release_archives d ↔
  is_Some (d !! n) ∧
  (glob_match "portunix_" ".tar.gz" n = true ∨
   glob_match "portunix_" ".zip" n = true).
Proof.
  unfold release_archives. rewrite elem_of_app, !glob_names_elem. tauto.
Qed.

Lemma release_archives_not_platforms (d : dist_dir) :
  "platforms" ∉ release_archives d.
Proof.
  intros [_ [H|H]]%release_archives_elem; vm_compute in H; discriminate.
Qed.

(** The set of release archives depends on the names in [dist/] only. *)
Lemma release_archives_same_names (d d' : dist_dir) (n : string) :
  (∀ k, is_Some (d !! k) ↔ is_Some (d' !! k)) →
  n ∈ release_archives d ↔ n ∈ release_archives d'.
Proof. intros H. by rewrite !release_archives_elem, H. Qed.

(** *** Copying the platform archives into the scratch tree *)

Lemma copy2_spec (n : string) (x : node fdata) (dest : path) (t t' : tree) :
  copy2 n x dest t = Ok t' →
  ∃ c, x = File c ∧ t' = <[dest ++ [n] := File c]> t ∧
       lookup_node t dest = Some Dir ∧ t !! (dest ++ [n]) ≠ Some Dir.
Proof.
  destruct x as [c|]; [|discriminate]. simpl.
  intros (_ & -> & Hpar & Hp)%write_file_spec.
  rewrite removelast_last in Hpar. by exists c.
Qed.

Lemma lookup_node_insert_child (t : tree) (dest : path) (n : string)
    (x : node fdata) :
  lookup_node (<[dest ++ [n] := x]> t) dest = lookup_node t dest.
Proof.
  destruct dest as [|a dest]; [reflexivity|]. cbn [lookup_node].
  rewrite lookup_insert_ne; [done|]. intros H. by eapply snoc_ne_self.
Qed.

Lemma copy_all_spec (srcs : list (string * node fdata)) (dest : path)
    (t t' : tree) :
  wf t → NoDup srcs.*1 → copy_all srcs dest t = Ok t' →
  wf t' ∧
  (∀ n x, (n, x) ∈ srcs → ∃ c, x = File c ∧ t' !! (dest ++ [n]) = Some (File c)) ∧
  (∀ p, (∀ n, n ∈ srcs.*1 → p ≠ dest ++ [n]) → t' !! p = t !! p).
Proof.
  revert t. induction srcs as [|[n x] srcs IH]; intros t Hwf Hnd; cbn [copy_all].
  - intros [= <-]. split_and!; [done| |done].
    intros n x H. by apply elem_of_nil in H.
  - intros (t1 & H1 & H2)%bind_ok.
    rewrite fmap_cons in Hnd. cbn [fst] in Hnd.
    apply NoDup_cons in Hnd as [Hn Hnd].
    apply copy2_spec in H1 as (c & -> & -> & Hdest & Htarget).
    destruct (IH _ (wf_insert t dest n (File c) Hwf Hdest (or_intror Htarget))
                 Hnd H2) as (Hwf' & Hsrcs & Hframe).
    split_and!; [done| |].
    + intros n' x' [[= -> ->]|Hin]%elem_of_cons; [|by apply Hsrcs].
      exists c. split; [done|]. rewrite Hframe.
      * apply lookup_insert_eq.
      * intros n' Hn' [_ [= ->]]%app_inj_tail. contradiction.
    + intros p Hp. rewrite Hframe.
      * apply lookup_insert_ne. intros <-. apply (Hp n); [|done].
        rewrite fmap_cons. by left.
      * intros n' Hn'. apply Hp. rewrite fmap_cons. by right.
Qed.

Lemma copy_all_within (T : tree) (srcs : list (string * node fdata))
    (dest : path) (a : tree) :
  wf a → lookup_node a dest = Some Dir → a ⊆ T →
  (∀ n x, (n, x) ∈ srcs → ∃ c, x = File c ∧ T !! (dest ++ [n]) = Some (File c)) →
  ∃ a', copy_all srcs dest a = Ok a' ∧ wf a' ∧ a ⊆ a' ∧ a' ⊆ T.
Proof.
  revert a. induction srcs as [|[n x] srcs IH]; intros a Hwf Hdest Hsub Hin; simpl.
  - by exists a.
  - destruct (Hin n x) as (c & -> & HT); [by left|].
    pose proof (subseteq_lookup_cases a T _ _ Hsub HT) as Hcases.
    assert (a !! (dest ++ [n]) ≠ Some Dir) as Hnd
      by (destruct Hcases as [-> | ->]; done).
    assert (copy2 n (File c) dest a = Ok (<[dest ++ [n] := File c]> a)) as ->.
    { simpl. unfold write_file.
      rewrite lookup_node_snoc, removelast_last, Hdest.
      destruct Hcases as [-> | ->]; reflexivity. }
    simpl.
    destruct (IH (<[dest ++ [n] := File c]> a)) as (a' & H & Hwf' & Hsub' & HsubT).
    + by apply wf_insert; auto.
    + by rewrite lookup_node_insert_child.
    + by apply insert_subseteq_l.
    + intros n' x' Hx'. apply Hin. by right.
    + exists a'. split_and!; try done.
      etrans; [|exact Hsub']. by apply subseteq_insert_same.
Qed.

(** *** The scratch tree of one release archive *)

Lemma read_members_ok (fmt : archive_format) (a : fdata)
    (members : list (path * node fdata)) :
  read_members fmt a = Ok members ↔ a = Packed fmt members.
Proof.
  destruct a as [s|fmt' ms]; simpl; [split; discriminate|].
  destruct fmt, fmt'; simpl; split; (discriminate || by intros [= ->]).
Qed.

Lemma open_release_ok (d : dist_dir) (name : string)
    (members : list (path * node fdata)) :
  open_release d name = Ok members ↔
  d !! name = Some (RegFile (Packed (format_of_name name) members)).
Proof.
  unfold open_release. destruct (d !! name) as [[a|ch]|]; try (split; discriminate).
  rewrite read_members_ok. split; [by intros -> | by intros [= ->]].
Qed.

Lemma prepare_tree_spec (d : dist_dir) (name : string) (t : tree) :
  prepare_tree d name = Ok t →
  ∃ members t0,
    d !! name = Some (RegFile (Packed (format_of_name name) members)) ∧
    extractall members ∅ = Ok t0 ∧
    wf t ∧
    t !! ["platforms"] = Some Dir ∧
    (∀ c, t0 !! ["platforms"] ≠ Some (File c)) ∧
    (∀ n x, (n, x) ∈ platform_archives d →
            ∃ c, x = File c ∧ t !! ["platforms"; n] = Some (File c)) ∧
    (∀ p, p ≠ ["platforms"] → ¬ injected_path d p → t !! p = t0 !! p).
Proof.
  unfold prepare_tree.
  intros (members & Hopen & (t0 & H0 & (t1 & H1 & H2)%bind_ok)%bind_ok)%bind_ok.
  apply open_release_ok in Hopen.
  pose proof (extractall_wf _ _ _ wf_empty H0) as Hwf0.
  apply mkdir_exist_ok_spec in H1 as (Hwf1 & Hdir1 & Hsub1 & Hframe1); [|done].
  apply copy_all_spec in H2 as (Hwf & Hsrcs & Hframe);
    [|done|apply platform_archives_nodup].
  exists members, t0. split_and!; try done.
  - rewrite Hframe; [exact Hdir1|]. intros n _. discriminate.
  - intros c Hc. eapply lookup_weaken in Hc; [|exact Hsub1].
    simpl in Hdir1. congruence.
  - intros p Hp Hinj. rewrite Hframe, Hframe1; [done..|].
    intros n Hn ->. apply Hinj. by exists n.
Qed.

Lemma prepare_tree_ext (d d' : dist_dir) (name : string) :
  d' !! name = d !! name → d' !! "platforms" = d !! "platforms" →
  prepare_tree d' name = prepare_tree d name.
Proof.
  intros H1 H2. unfold prepare_tree, open_release, platform_archives.
  by rewrite H1, H2.
Qed.

(** *** The loop over the release archives *)

Lemma inject_one_ok (name : string) (d : dist_dir) (t : tree) :
  prepare_tree d name = Ok t →
  returned (inject_one name d) = Ok () ∧
  final (inject_one name d)
    = <[name := RegFile (pack (format_of_name name) t)]> d.
Proof.
  intros H. unfold inject_one. rewrite H. simpl. by rewrite insert_delete_eq.
Qed.

Lemma inject_one_raise (name : string) (d : dist_dir) (e : exn) :
  prepare_tree d name = Raise e →
  returned (inject_one name d) = Raise e ∧ final (inject_one name d) = d.
Proof. intros H. unfold inject_one. by rewrite H. Qed.

(** The archives are processed in order; the first one whose scratch tree
    cannot be prepared ends the loop with its exception.  Those before it
    have been rewritten, everything else in [dist/] is as it was. *)
Lemma inject_each_spec (names : list string) (d : dist_dir) :
  NoDup names → "platforms" ∉ names →
  ∃ processed rest,
    names = processed ++ rest ∧
    (∀ k, k ∈ processed →
          ∃ t, prepare_tree d k = Ok t ∧
               final (inject_each names d) !! k
                 = Some (RegFile (pack (format_of_name k) t))) ∧
    (∀ k, k ∉ processed → final (inject_each names d) !! k = d !! k) ∧
    match rest with
    | [] => returned (inject_each names d) = Ok ()
    | bad :: _ => ∃ e, prepare_tree d bad = Raise e ∧
                       returned (inject_each names d) = Raise e
    end.
Proof.
  revert d. induction names as [|n names IH]; intros d Hnd Hplat.
  - exists [], []. split_and!; try done. intros k H. by apply elem_of_nil in H.
  - apply NoDup_cons in Hnd as [Hn Hnd].
    apply not_elem_of_cons in Hplat as [Hpn Hplat].
    cbn [inject_each].
    destruct (prepare_tree d n) as [t|e] eqn:Hprep.
    + destruct (inject_one_ok _ _ _ Hprep) as [Hret Hfin].
      rewrite Hret, Hfin. cbn [final returned].
      set (d1 := <[n := RegFile (pack (format_of_name n) t)]> d).
      destruct (IH d1 Hnd Hplat) as (processed & rest & -> & Hproc & Hother & Hrest).
      assert (∀ k, k ∈ processed ++ rest → prepare_tree d1 k = prepare_tree d k)
        as Hext.
      { intros k Hk. apply prepare_tree_ext; unfold d1.
        - rewrite lookup_insert_ne; [done|]. by intros ->.
        - by rewrite lookup_insert_ne. }
      exists (n :: processed), rest. split_and!; [done| | |].
      * intros k [->|Hk]%elem_of_cons.
        -- exists t. split; [done|]. rewrite Hother.
           ++ apply lookup_insert_eq.
           ++ intros Hk. apply Hn, elem_of_app. by left.
        -- destruct (Hproc k Hk) as (t' & Ht' & Hk').
           exists t'. split; [|done]. rewrite <- Hext; [done|].
           apply elem_of_app. by left.
      * intros k [Hkn Hk]%not_elem_of_cons. rewrite (Hother k Hk).
        unfold d1. by rewrite lookup_insert_ne.
      * destruct rest as [|bad rest]; [done|].
        destruct Hrest as (e & He & Hr). exists e. split; [|done].
        rewrite <- Hext; [done|]. apply elem_of_app. right. by left.
    + destruct (inject_one_raise _ _ _ Hprep) as [Hret Hfin].
      rewrite Hret. exists [], (n :: names). split_and!; [done| | |].
      * intros k H. by apply elem_of_nil in H.
      * intros k _. by rewrite Hfin.
      * by exists e.
Qed.

(** *** Running the preparation again on an archive that was rewritten *)

Lemma prepare_tree_again (d d1 : dist_dir) (name : string) (t : tree) :
  prepare_tree d name = Ok t →
  d1 !! name = Some (RegFile (pack (format_of_name name) t)) →
  d1 !! "platforms" = d !! "platforms" →
  ∃ t', prepare_tree d1 name = Ok t' ∧ wf t' ∧
        ∀ p, t' !! p ≫= file_data = t !! p ≫= file_data.
Proof.
  intros Hprep Hname Hplat.
  destruct (prepare_tree_spec _ _ _ Hprep)
    as (members & t0 & _ & _ & Hwf & Hdir & _ & Hsrcs & _).
  destruct (unpack_pack (format_of_name name) t Hwf)
    as (t3 & H3 & Hwf3 & Hsub3 & Hfiles3).
  assert (∃ t4, mkdir_exist_ok t3 ["platforms"] = Ok t4 ∧ wf t4 ∧
                lookup_node t4 ["platforms"] = Some Dir ∧ t3 ⊆ t4 ∧ t4 ⊆ t)
    as (t4 & H4 & Hwf4 & Hdir4 & Hsub34 & Hsub4).
  { destruct (subseteq_lookup_cases t3 t _ _ Hsub3 Hdir) as [Hnone|Hsome].
    - exists (<[["platforms"] := Dir]> t3).
      assert (mkdir_exist_ok t3 ["platforms"] = Ok (<[["platforms"] := Dir]> t3))
        as Hmk by (unfold mkdir_exist_ok; simpl; by rewrite Hnone).
      destruct (mkdir_exist_ok_spec _ _ _ Hwf3 Hmk) as (? & ? & ? & _).
      split_and!; try done. by apply insert_subseteq_l.
    - exists t3. unfold mkdir_exist_ok; simpl. by rewrite Hsome. }
  destruct (copy_all_within t (platform_archives d) ["platforms"] t4)
    as (t5 & H5 & Hwf5 & Hsub45 & Hsub5); [done..|].
  exists t5. split_and!; [|done|].
  - unfold prepare_tree, platform_archives, open_release.
    rewrite Hname, Hplat. unfold pack. simpl.
    assert (format_eqb (format_of_name name) (format_of_name name) = true) as ->
      by (by destruct (format_of_name name)).
    simpl. rewrite H3. simpl. rewrite H4. simpl. exact H5.
  - intros p. destruct (t !! p) as [[c|]|] eqn:Hp; simpl.
    + apply Hfiles3 in Hp. eapply lookup_weaken in Hp; [|exact Hsub34].
      eapply lookup_weaken in Hp; [|exact Hsub45]. by rewrite Hp.
    + destruct (t5 !! p) as [n|] eqn:Hp5; [|done].
      eapply lookup_weaken in Hp5; [|exact Hsub5]. by simplify_eq.
    + destruct (t5 !! p) as [n|] eqn:Hp5; [|done].
      eapply lookup_weaken in Hp5; [|exact Hsub5]. by simplify_eq.
Qed.

(** The whole stage, when [dist/platforms] exists. *)
Lemma inject_platform_archives_present (d : dist_dir) :
  is_Some (d !! "platforms") →
  final (inject_platform_archives d) = final (inject_each (release_archives d) d) ∧
  returned (inject_platform_archives d)
    = returned (inject_each (release_archives d) d).
Proof.
  intros [x Hx]. unfold inject_platform_archives. rewrite Hx.
  destruct (returned (inject_each (release_archives d) d)) as [[]|e] eqn:Hr;
    simpl; by rewrite ?Hr.
Qed.

Lemma inject_platform_archives_absent (d : dist_dir) :
  d !! "platforms" = None →
  inject_platform_archives d
    = Outcome d [Step "Injecting platform archives into release packages...";
                 Warning "Platforms directory not found, skipping injection"]
              (Ok ()).
Proof. intros H. unfold inject_platform_archives. by rewrite H. Qed.

(** A run that returns has rewritten every release archive. *)
Lemma injected_all (d : dist_dir) :
  is_Some (d !! "platforms") →
  returned (inject_platform_archives d) = Ok () →
  (∀ k, k ∈ release_archives d →
        ∃ t, prepare_tree d k = Ok t ∧
             injected d !! k = Some (RegFile (pack (format_of_name k) t))) ∧
  (∀ k, k ∉ release_archives d → injected d !! k = d !! k).
Proof.
  intros Hplat Hret. unfold injected.
  destruct (inject_platform_archives_present d Hplat) as [-> Hr].
  rewrite Hr in Hret.
  destruct (inject_each_spec (release_archives d) d)
    as (processed & rest & Hsplit & Hproc & Hother & Hrest);
    [apply release_archives_nodup | apply release_archives_not_platforms |].
  destruct rest as [|bad rest].
  - rewrite app_nil_r in Hsplit. subst processed. done.
  - destruct Hrest as (e & _ & He). congruence.
Qed.

(** The whole stage in terms of the loop: which archives were rewritten
    and how the stage ended. *)
Lemma inject_stage_spec (d : dist_dir) :
  is_Some (d !! "platforms") →
  ∃ processed rest,
    release_archives d = processed ++ rest ∧
    (∀ k, k ∈ processed →
          ∃ t, prepare_tree d k = Ok t ∧
               injected d !! k = Some (RegFile (pack (format_of_name k) t))) ∧
    (∀ k, k ∉ processed → injected d !! k = d !! k) ∧
    match rest with
    | [] => returned (inject_platform_archives d) = Ok ()
    | failing :: _ =>
        ∃ e, prepare_tree d failing = Raise e ∧
             returned (inject_platform_archives d) = Raise e
    end.
Proof.
  intros Hplat. unfold injected.
  destruct (inject_platform_archives_present d Hplat) as [-> ->].
  apply inject_each_spec;
    [apply release_archives_nodup | apply release_archives_not_platforms].
Qed.

End InjectProofs.

(** ** Injection: the statements *)
Module InjectTheorems.
Import MakeRelease TreeFacts TreeProofs InjectFacts InjectProofs.

Lemma release_file_injected (d : dist_dir) (name : string) (t : tree) (p : path) :
  prepare_tree d name = Ok t →
  injected d !! name = Some (RegFile (pack (format_of_name name) t)) →
  release_file (injected d) name p = t !! p ≫= file_data.
Proof.
  intros Hprep Hname. unfold release_file. rewrite Hname.
  apply archive_file_pack.
  by destruct (prepare_tree_spec _ _ _ Hprep) as (? & ? & _ & _ & ? & _).
Qed.

(** C1, as amended.  After an injection that returns, a release archive
    still has every file it had before with the same data, except at the
    paths [platforms/<name>] taken by the platform archives, which are
    overwritten; and every platform archive is in it under [platforms/]
    with the data of its source file. *)
Theorem injection_round_trip (d : dist_dir) (name : string) :
  returned (inject_platform_archives d) = Ok () →
  name ∈ release_archives d →
  (∀ p c, release_file d name p = Some c → ¬ injected_path d p →
          release_file (injected d) name p = Some c) ∧
  (∀ n x, (n, x) ∈ platform_archives d →
          ∃ c, x = File c ∧
               release_file (injected d) name ["platforms"; n] = Some c).
Proof.
  intros Hret Hname.
  destruct (d !! "platforms") as [x|] eqn:Hplat.
  - destruct (injected_all d) as [Hall _]; [by eexists|done|].
    destruct (Hall name Hname) as (t & Hprep & Hinj).
    destruct (prepare_tree_spec _ _ _ Hprep)
      as (members & t0 & Hd & H0 & Hwf & Hdir & Hnofile & Hsrcs & Hframe).
    split.
    + intros p c Hp Hnot.
      rewrite (release_file_injected d name t p Hprep Hinj).
      unfold release_file, archive_file in Hp. rewrite Hd in Hp. simpl in Hp.
      rewrite H0 in Hp. simpl in Hp.
      destruct (t0 !! p) as [[c'|]|] eqn:Hp0; simpl in Hp; try discriminate.
      injection Hp as ->.
      rewrite Hframe, Hp0; [done| |done].
      intros ->. by apply (Hnofile c).
    + intros n y Hin. destruct (Hsrcs n y Hin) as (c & -> & Hc).
      exists c. split; [done|].
      by rewrite (release_file_injected d name t _ Hprep Hinj), Hc.
  - unfold injected. rewrite (inject_platform_archives_absent d Hplat). simpl.
    split; [done|]. unfold platform_archives. rewrite Hplat.
    intros n y H. by apply elem_of_nil in H.
Qed.

Lemma injection_round_trip_witness :
  release_file (injected sample_dist) linux_release ["docs"; "README.md"]
    = Some (Bytes "readme") ∧
  release_file (injected sample_dist) linux_release
      ["platforms"; "windows-amd64.zip"]
    = Some (Packed Zip [(["portunix.exe"], File (Bytes "MZ"))]).
Proof.
  destruct (injection_round_trip sample_dist linux_release) as [Hkept Hadded].
  - vm_compute. reflexivity.
  - apply list_elem_of_In. vm_compute. auto.
  - split.
    + apply Hkept; [vm_compute; reflexivity|].
      intros (n & _ & Hn). discriminate Hn.
    + destruct (Hadded "windows-amd64.zip"
                  (File (Packed Zip [(["portunix.exe"], File (Bytes "MZ"))])))
        as (c & [= <-] & Hc); [|exact Hc].
      apply list_elem_of_In. vm_compute. auto.
Defined.

(** C1 as stated fails: a file already at [platforms/linux-amd64.tar.gz]
    in the release archive is replaced by the platform archive of that
    name. *)
Lemma injection_overwrites_existing_copy :
  ¬ (∀ (d : dist_dir) (name : string) (p : path) (c : fdata),
       returned (inject_platform_archives d) = Ok () →
       name ∈ release_archives d →
       release_file d name p = Some c →
       release_file (injected d) name p = Some c).
Proof.
  intros H.
  specialize (H stale_dist linux_release ["platforms"; "linux-amd64.tar.gz"]
                (Bytes "older build")).
  assert (release_file (injected stale_dist) linux_release
            ["platforms"; "linux-amd64.tar.gz"]
          = Some (Packed TarGz [(["portunix"], File (Bytes "ELF"))])) as Hnew
    by (vm_compute; reflexivity).
  rewrite H in Hnew; [discriminate| | |].
  - vm_compute. reflexivity.
  - apply list_elem_of_In. vm_compute. auto.
  - vm_compute. reflexivity.
Qed.




(** C4, as amended.  When [dist/platforms] does not exist, the stage
    prints a warning and returns, and [dist/] is left as it is. *)
Theorem injection_skipped_without_platforms (d : dist_dir) :
  d !! "platforms" = None →
  injected d = d ∧
  returned (inject_platform_archives d) = Ok () ∧
  printed (inject_platform_archives d)
    = [Step "Injecting platform archives into release packages...";
       Warning "Platforms directory not found, skipping injection"].
Proof.
  intros H. unfold injected.
  by rewrite (inject_platform_archives_absent d H).
Qed.

Lemma injection_skipped_without_platforms_witness :
  injected no_platforms_dist = no_platforms_dist ∧
  returned (inject_platform_archives no_platforms_dist) = Ok () ∧
  printed (inject_platform_archives no_platforms_dist)
    = [Step "Injecting platform archives into release packages...";
       Warning "Platforms directory not found, skipping injection"].
Proof.
  apply (injection_skipped_without_platforms no_platforms_dist).
  vm_compute. reflexivity.
Defined.

(** C4 as stated fails for a directory that exists and is empty: no
    warning is printed, the release archive is unpacked and written again,
    and it now has a [platforms] directory entry. *)
Lemma injection_not_skipped_when_empty :
  platform_archives empty_platforms_dist = [] ∧
  forallb (λ m, negb (is_warning m))
          (printed (inject_platform_archives empty_platforms_dist)) = true ∧
  empty_platforms_dist !! linux_release
    = Some (RegFile (Packed TarGz [(["portunix"], File (Bytes "ELF"))])) ∧
  injected empty_platforms_dist !! linux_release
    = Some (RegFile (Packed TarGz [(["portunix"], File (Bytes "ELF"));
                                   (["platforms"], Dir)])).
Proof. vm_compute. done. Qed.

(** C8.  Running the injection again on its own result succeeds and
    leaves every release archive with the same files and data as after
    the first run, in particular under [platforms/], and no member name
    occurs twice. *)
Theorem injection_idempotent (d : dist_dir) (name : string) :
  is_Some (d !! "platforms") →
  returned (inject_platform_archives d) = Ok () →
  name ∈ release_archives d →
  returned (inject_platform_archives (injected d)) = Ok () ∧
  (∀ p, release_file (injected (injected d)) name p
        = release_file (injected d) name p) ∧
  NoDup (release_members (injected (injected d)) name).
Proof.
  intros Hplat Hret Hname.
  destruct (injected_all d Hplat Hret) as [Hall Hother].
  assert (injected d !! "platforms" = d !! "platforms") as Hplat1
    by apply Hother, release_archives_not_platforms.
  assert (∀ k, is_Some (d !! k) ↔ is_Some (injected d !! k)) as Hnames.
  { intros k. destruct (decide (k ∈ release_archives d)) as [Hk|Hk].
    - destruct (Hall k Hk) as (t & _ & ->).
      apply release_archives_elem in Hk as [Hk _]. split; [by eexists|done].
    - by rewrite (Hother k Hk). }
  assert (∀ k, k ∈ release_archives (injected d) →
            ∃ t t', prepare_tree d k = Ok t ∧
                    injected d !! k = Some (RegFile (pack (format_of_name k) t)) ∧
                    prepare_tree (injected d) k = Ok t' ∧ wf t' ∧
                    ∀ p, t' !! p ≫= file_data = t !! p ≫= file_data) as Hagain.
  { intros k Hk%(release_archives_same_names d (injected d) k Hnames).
    destruct (Hall k Hk) as (t & Hprep & Hk1).
    destruct (prepare_tree_again d (injected d) k t Hprep Hk1 Hplat1)
      as (t' & ? & ? & ?).
    by exists t, t'. }
  assert (is_Some (injected d !! "platforms")) as Hplat'
    by (by rewrite Hplat1).
  assert (returned (inject_platform_archives (injected d)) = Ok ()) as Hret2.
  { destruct (inject_stage_spec (injected d) Hplat')
      as (processed & rest & Hsplit & _ & _ & Hrest).
    destruct rest as [|bad rest]; [done|].
    destruct Hrest as (e & He & _).
    destruct (Hagain bad) as (t & t' & _ & _ & Hok & _); [|congruence].
    rewrite Hsplit. apply elem_of_app. right. by left. }
  split; [exact Hret2|].
  destruct (injected_all (injected d) Hplat' Hret2) as [Hall2 _].
  apply (release_archives_same_names d (injected d) name Hnames) in Hname.
  destruct (Hall2 name Hname) as (t' & Hprep' & Hname2).
  destruct (Hagain name Hname) as (t & t'' & Hprep & Hname1 & Hprep'' & Hwf' & Hsame).
  assert (t'' = t') as -> by congruence.
  split.
  - intros p.
    rewrite (release_file_injected (injected d) name t' p Hprep' Hname2).
    rewrite (release_file_injected d name t p Hprep Hname1).
    apply Hsame.
  - unfold release_members. rewrite Hname2. apply walk_names_nodup.
Qed.

Lemma injection_idempotent_witness :
  returned (inject_platform_archives (injected stale_dist)) = Ok () ∧
  (∀ p, release_file (injected (injected stale_dist)) linux_release p
        = release_file (injected stale_dist) linux_release p) ∧
  NoDup (release_members (injected (injected stale_dist)) linux_release).
Proof.
  apply (injection_idempotent stale_dist linux_release).
  - vm_compute. eauto.
  - vm_compute. reflexivity.
  - apply list_elem_of_In. vm_compute. auto.
Defined.

End InjectTheorems.

(** ** The build stage and its temporary tag *)
Module BuildTheorems.
Import MakeRelease BuildFacts.

Lemma git_tag_delete_gone (version : string) (w : world) :
  version ∉ tags (git_tag_delete version w).1.
Proof.
  unfold git_tag_delete.
  destruct (decide (version ∈ tags w)) as [Hin|Hout]; simpl; [|exact Hout].
  apply not_elem_of_difference. right. by apply elem_of_singleton.
Qed.

Lemma git_tag_create_fresh (version : string) (w : world) :
  version ∉ tags w →
  git_tag_create version w
    = (World ({[version]} ∪ tags w) (dist w), Exited 0).
Proof. intros H. unfold git_tag_create. by destruct (decide (version ∈ tags w)). Qed.

Lemma git_tag_delete_present (version : string) (w : world) :
  version ∈ tags w →
  git_tag_delete version w
    = (World (tags w ∖ {[version]}) (dist w), Exited 0).
Proof. intros H. unfold git_tag_delete. by destruct (decide (version ∈ tags w)). Qed.

Lemma run_goreleaser_unfold (version : string) (build : tool_run) (w : world) :
  run_goreleaser version build w
  = let l := [Step "Running GoReleaser to create cross-platform release...";
              Info "Cleaning previous builds...";
              Info "Building release packages...";
              Info ("Creating temporary git tag " +:+ version +:+ " for build...")] in
    let o := tagged_build version build (tagged version w) in
    match returned o with
    | Ok _ => Outcome (final o) (l ++ printed o ++ [Out ""]) (Ok true)
    | Raise CalledProcessError =>
        Outcome (git_tag_delete version (final o)).1
                (l ++ printed o ++ [Error "GoReleaser failed"]) (Ok false)
    | Raise e => Outcome (final o) (l ++ printed o) (Raise e)
    end.
Proof.
  unfold run_goreleaser.
  rewrite (git_tag_create_fresh version); [|apply git_tag_delete_gone].
  assert (dist (git_tag_delete version (World (tags w) None)).1 = None) as Hd.
  { unfold git_tag_delete. by destruct (decide _). }
  rewrite Hd. reflexivity.
Qed.

(** When the build tool runs and exits, with whatever return code, the tag
    is gone when [run_goreleaser] returns, and the result tells whether the
    build succeeded. *)
Lemma run_goreleaser_exited (version : string) (rc : Z)
    (after : option dist_dir) (w : world) :
  let o := run_goreleaser version (ToolRun (Exited rc) after) w in
  (version ∉ tags (final o)) ∧ returned o = Ok (rc =? 0)%Z.
Proof.
  cbv zeta. rewrite run_goreleaser_unfold. cbv zeta.
  unfold tagged_build, goreleaser_release, run_command. cbn [ended dist_after].
  destruct (rc =? 0)%Z eqn:Hrc; cbn [andb negb returned final].
  - rewrite git_tag_delete_present
      by (unfold tagged; simpl; apply elem_of_union; left; by apply elem_of_singleton).
    cbn. split; [|done].
    apply not_elem_of_difference. right. by apply elem_of_singleton.
  - split; [|done]. apply git_tag_delete_gone.
Qed.

(** When the build tool cannot be launched, the exception is not the one
    the handler catches: it leaves [run_goreleaser] and the tag stays. *)
Lemma run_goreleaser_not_found (version : string)
    (after : option dist_dir) (w : world) :
  let o := run_goreleaser version (ToolRun NotFound after) w in
  version ∈ tags (final o) ∧ returned o = Raise FileNotFoundError.
Proof.
  cbv zeta. rewrite run_goreleaser_unfold. cbv zeta.
  unfold tagged_build, goreleaser_release, run_command. cbn [ended dist_after].
  cbn. split; [|done]. set_solver.
Qed.

(** C3, at the failing input.  [run_goreleaser("v1.2.3", cmd)] in a
    repository without tags, where [cmd] names no executable: the call
    raises [FileNotFoundError] and the tag [v1.2.3] is still there. *)
Theorem temporary_tag_left_when_tool_missing :
  let o := run_goreleaser "v1.2.3" (ToolRun NotFound None) (World ∅ None) in
  returned o = Raise FileNotFoundError ∧
  tags (final o) = {[ "v1.2.3" ]}.
Proof.
  cbv zeta.
  destruct (run_goreleaser_not_found "v1.2.3" None (World ∅ None)) as [_ Hr].
  split; [exact Hr|].
  rewrite run_goreleaser_unfold. cbn. set_solver.
Qed.

End BuildTheorems.

(** ** The platform archive builder: the statements *)
Module BuilderTheorems.
Import CreatePlatformArchives BuilderFacts TreeProofs.



Lemma open_for_writing (fs : tree) (p : path) (d d' : fdata) :
  is_ok (write_file fs p d) = is_ok (write_file fs p d').
Proof.
  unfold write_file.
  destruct (lookup_node fs p) as [[?|]|];
    destruct (lookup_node fs (removelast p)) as [[?|]|]; reflexivity.
Qed.

(** One platform: what is printed and counted agrees with what was found,
    and a created archive is in the file system afterwards. *)
Lemma create_platform_archive_spec (platforms_dir output_dir : path)
    (platform : string) (fs : tree) :
  let '(fs', l, created) :=
    create_platform_archive platforms_dir output_dir platform fs in
  let r := classify platforms_dir output_dir platform fs in
  created = is_created r ∧
  how_many is_warning l = (if is_skipped r then 1 else 0)%Z ∧
  how_many is_error l = (if is_failed r then 1 else 0)%Z ∧
  how_many is_success l = (if is_created r then 1 else 0)%Z ∧
  (is_created r = false → fs' = fs) ∧
  (is_created r = true →
   ∃ members,
     fs' !! archive_path output_dir platform
       = Some (File (Packed (get_archive_info platform).2 members))).
Proof.
  unfold create_platform_archive, classify, is_dir, archive_path.
  destruct (lookup_node fs (platforms_dir ++ [platform])) as [[d|]|] eqn:Hdir;
    cbn [negb]; try (split_and!; done).
  destruct (iterdir fs (platforms_dir ++ [platform])) as [|e es];
    [split_and!; done|].
  destruct (get_archive_info platform) as [archive_name archive_type] eqn:Hinfo.
  cbn [fst snd].
  set (target := output_dir ++ [archive_name]).
  assert (∀ fmt fs1, write_file fs target (Packed fmt []) = Ok fs1 →
            lookup_node fs1 (platforms_dir ++ [platform]) = Some Dir) as Hstill.
  { intros fmt fs1 (Hne & -> & _ & Htarget)%write_file_spec.
    rewrite lookup_node_snoc in *. rewrite lookup_insert_ne; [done|].
    intros Heq. rewrite Heq in Htarget. contradiction. }
  destruct archive_type.
  - rewrite (open_for_writing fs target (Bytes "") (Packed TarGz [])).
    unfold create_tar_gz.
    destruct (write_file fs target (Packed TarGz [])) as [fs1|err] eqn:Hw;
      cbn [is_ok returned final]; [|split_and!; done].
    rewrite (Hstill _ _ Hw). cbn [returned final].
    split_and!; try done.
    intros _. eexists. apply lookup_insert_eq.
  - rewrite (open_for_writing fs target (Bytes "") (Packed Zip [])).
    unfold create_zip.
    destruct (write_file fs target (Packed Zip [])) as [fs1|err] eqn:Hw;
      cbn [is_ok returned final]; [|split_and!; done].
    split_and!; try done.
    intros _. eexists. apply lookup_insert_eq.
Qed.






(** With nothing built the count is zero and [main] fails; a platform
    whose archive cannot be written is skipped without stopping the others. *)
Lemma builder_examples :
  returned (main ["dist"; "platforms"] ["dist"; "platforms"] nothing_built)
    = Ok 1%Z ∧
  platform_results ["dist"; "platforms"] ["dist"; "platforms"] PLATFORMS
    blocked_output = [WriteFailed; SkippedMissing; Created; SkippedMissing] ∧
  returned (create_platform_archives ["dist"; "platforms"] ["dist"; "platforms"]
              blocked_output) = Ok 1%Z.
Proof. vm_compute. done. Qed.

End BuilderTheorems.

(** ** Release notes: ordering and rendering *)
Module NotesProofs.
Import CollectReleaseNotes NotesFacts.

(** *** [mapM] in the exception monad *)

Lemma mapM_ok {A B : Type} (f : A → result B) (l : list A) (ks : list B) :
  mapM f l = Ok ks ↔ Forall2 (λ x k, f x = Ok k) l ks.
Proof.
  revert ks. induction l as [|x l IH]; intros ks; simpl.
  - split; [intros [= <-]; constructor | by intros ->%Forall2_nil_inv_l].
  - destruct (f x) as [k|e] eqn:Hx; simpl.
    + destruct (mapM f l) as [ks'|e] eqn:Hl; simpl.
      * split.
        -- intros [= <-]. constructor; [done|]. by apply IH.
        -- intros (k' & ks'' & Hk & Hks & ->)%Forall2_cons_inv_l.
           apply IH in Hks. rewrite Hx in Hk.
           injection Hk as <-. injection Hks as <-. reflexivity.
      * split; [discriminate|].
        intros (k' & ks'' & _ & Hks & ->)%Forall2_cons_inv_l.
        apply IH in Hks. discriminate.
    + split; [discriminate|].
      intros (k' & ks'' & Hk & _)%Forall2_cons_inv_l. congruence.
Qed.

Lemma mapM_raise {A B : Type} (f : A → result B) (l : list A) (e : exn) :
  mapM f l = Raise e → ∃ x, x ∈ l ∧ f x = Raise e.
Proof.
  induction l as [|x l IH]; simpl; [discriminate|].
  destruct (f x) as [k|e'] eqn:Hx; simpl.
  - destruct (mapM f l) as [ks|e'] eqn:Hl; simpl; [discriminate|].
    intros [= ->]. destruct IH as (y & Hy & Hfy); [done|].
    exists y. split; [by right|done].
  - intros [= ->]. exists x. split; [by left|done].
Qed.


Lemma mapM_some_raise {A B : Type} (f : A → result B) (l : list A) (x : A) :
  x ∈ l → is_ok (f x) = false → ∃ e, mapM f l = Raise e.
Proof.
  intros Hx Hfx. destruct (mapM f l) as [ks|e] eqn:Hl; [|by eexists].
  apply mapM_ok in Hl.
  apply list_elem_of_lookup in Hx as [i Hi].
  destruct (Forall2_lookup_l _ _ _ _ _ Hl Hi) as (k & _ & Hk).
  rewrite Hk in Hfx. discriminate.
Qed.

(** *** The order on keys *)

Lemma key_ltb_asym (a b : list Z) : key_ltb a b = true → key_ltb b a = false.
Proof.
  revert b. induction a as [|x a IH]; intros [|y b]; simpl; try done.
  destruct (Z.ltb_spec x y), (Z.ltb_spec y x); try done; try lia.
  apply IH.
Qed.

Lemma key_geb_trans (a b c : list Z) :
  key_ltb a b = false → key_ltb b c = false → key_ltb a c = false.
Proof.
  revert b c. induction a as [|x a IH]; intros [|y b] [|z c]; simpl; try done.
  destruct (Z.ltb_spec x y), (Z.ltb_spec y x), (Z.ltb_spec y z),
    (Z.ltb_spec z y), (Z.ltb_spec x z), (Z.ltb_spec z x);
    try done; try lia.
  apply IH.
Qed.

(** *** The sort *)

Lemma insert_desc_perm (x : list Z * string) (l : list (list Z * string)) :
  insert_desc x l ≡ₚ x :: l.
Proof.
  induction l as [|y l IH]; simpl; [done|].
  destruct (key_ltb x.1 y.1); [|done].
  rewrite IH. apply Permutation_swap.
Qed.

Lemma sort_desc_perm (l : list (list Z * string)) : sort_desc l ≡ₚ l.
Proof.
  induction l as [|x l IH]; simpl; [done|].
  rewrite insert_desc_perm. by constructor.
Qed.

Lemma insert_desc_sorted (x : list Z * string) (l : list (list Z * string)) :
  StronglySorted key_geb_pair l → StronglySorted key_geb_pair (insert_desc x l).
Proof.
  induction l as [|y l IH]; simpl; intros Hl.
  - repeat constructor.
  - apply StronglySorted_inv in Hl as [Hl Hy].
    destruct (key_ltb x.1 y.1) eqn:Hxy.
    + constructor; [by apply IH|].
      rewrite insert_desc_perm. constructor; [|done].
      by apply key_ltb_asym.
    + constructor; [by constructor|].
      constructor; [done|].
      eapply Forall_impl; [exact Hy|].
      intros z Hz. by eapply key_geb_trans.
Qed.

Lemma sort_desc_sorted (l : list (list Z * string)) :
  StronglySorted key_geb_pair (sort_desc l).
Proof.
  induction l as [|x l IH]; simpl; [constructor|].
  by apply insert_desc_sorted.
Qed.




Lemma version_key_raise (v : string) (e : exn) :
  version_key v = Raise e → e = ValueError.
Proof.
  intros (piece & _ & H)%mapM_raise.
  destruct (py_int piece); [discriminate|]. by injection H.
Qed.

Lemma version_key_rejects (v piece : string) :
  piece ∈ split "." v → py_int piece = None → parses v = false.
Proof.
  intros Hin Hpiece. unfold parses, version_key.
  edestruct (mapM_some_raise
               (λ x, match py_int x with
                     | Some n => Ok n
                     | None => Raise ValueError
                     end) (split "." v) piece) as [e ->]; [done| |done].
  by rewrite Hpiece.
Qed.

Lemma sorted_versions_raise (existing : list string) (v : string) :
  v ∈ existing → parses v = false →
  sorted_versions existing = Raise ValueError.
Proof.
  intros Hv Hbad. unfold sorted_versions.
  destruct (mapM_some_raise version_key existing v Hv Hbad) as [e He].
  rewrite He. simpl.
  apply mapM_raise in He as (w & _ & Hw). by apply version_key_raise in Hw as ->.
Qed.

End NotesProofs.

(** ** Release notes: the statements *)
Module NotesTheorems.
Import CollectReleaseNotes NotesFacts NotesProofs.

Section Formatting.
Variable py_format : json → string.

Lemma render_version_renderable (dir : notes_dir) (v : string)
    (lines : list string) :
  renderable py_format dir v = true →
  ∃ log, render_version py_format dir v lines
         = (log, Ok (lines ++ [markdown_of py_format dir v; "---"; ""])).
Proof.
  unfold renderable, render_version, markdown_of.
  destruct (load_release_notes dir v) as [l0 [[data|]|e]]; simpl; try done.
  destruct (truthy data); simpl; [|done].
  destruct (validate_json py_format data v) as [errors|e]; simpl; [|done].
  destruct (generate_markdown_for_version py_format data) as [md|e]; simpl;
    [|done].
  intros _. by eexists.
Qed.

Lemma render_versions_all (dir : notes_dir) (vs : list string)
    (lines : list string) :
  Forall (λ v, renderable py_format dir v = true) vs →
  ∃ log, render_versions py_format dir vs lines
         = (log, Ok (lines ++ (vs ≫= λ v, [markdown_of py_format dir v; "---"; ""]))).
Proof.
  intros Hall. revert lines.
  induction Hall as [|v vs Hv _ IH]; intros lines; simpl.
  - exists []. by rewrite app_nil_r.
  - destruct (render_version_renderable dir v lines Hv) as [l0 ->].
    destruct (IH (lines ++ [markdown_of py_format dir v; "---"; ""])) as [l1 ->].
    exists (l0 ++ l1). by rewrite <- app_assoc.
Qed.


(** C10, as amended.  Without an explicit subset, a record file whose stem
    has a dot-separated piece that [int()] rejects makes the generation
    raise [ValueError] before anything is rendered. *)
Theorem aggregate_raises_on_unparsable_stem (now : string) (dir : notes_dir)
    (versions : option (list string)) (v piece : string) :
  versions = None ∨ versions = Some [] →
  v ∈ get_existing_json_versions dir →
  piece ∈ split "." v →
  py_int piece = None →
  generate_full_release_notes py_format now dir versions
  = ([], Raise ValueError).
Proof.
  intros Hversions Hv Hpiece Hreject.
  unfold generate_full_release_notes.
  assert (sorted_versions (elements (get_existing_json_versions dir))
          = Raise ValueError) as Hsort.
  { apply (sorted_versions_raise _ v); [by apply elem_of_elements|].
    by eapply version_key_rejects. }
  destruct Hversions as [-> | ->]; by rewrite Hsort.
Qed.


End Formatting.


Lemma aggregate_raises_on_unparsable_stem_witness :
  generate_full_release_notes simple_format "2026-01-15 10:00:00"
    snapshot_record None
  = ([], Raise ValueError).
Proof.
  apply (aggregate_raises_on_unparsable_stem simple_format _ snapshot_record
           None "1.8.0-SNAPSHOT" "0-SNAPSHOT").
  - by left.
  - apply elem_of_elements, list_elem_of_In. vm_compute. auto.
  - apply list_elem_of_In. vm_compute. auto.
  - vm_compute. reflexivity.
Defined.

(** C10 as stated fails: the stem [1_0.0.0] is not made of decimal
    integers separated by dots, yet [int()] accepts each piece and the
    document is generated. *)
Lemma aggregate_accepts_underscore_stem :
  ¬ (∀ (dir : notes_dir) (v : string),
       v ∈ get_existing_json_versions dir →
       numeric_stem v = false →
       is_ok (generate_full_release_notes simple_format "" dir None).2 = false).
Proof.
  intros H. specialize (H underscore_record "1_0.0.0").
  assert (is_ok (generate_full_release_notes simple_format "" underscore_record
                   None).2 = true) as Hok by (vm_compute; reflexivity).
  rewrite H in Hok; [discriminate| |vm_compute; reflexivity].
  apply elem_of_elements, list_elem_of_In. vm_compute. auto.
Qed.



End NotesTheorems.

(** ** Strings: prefixes, suffixes and reversal *)
Module StringLemmas.

Lemma append_cons (c : ascii) (a b : string) :
  String c a +:+ b = String c (a +:+ b).
Proof. reflexivity. Qed.

Lemma append_nil_l (s : string) : "" +:+ s = s.
Proof. reflexivity. Qed.

Lemma append_nil_r (s : string) : s +:+ "" = s.
Proof. induction s as [|c s IH]; [done | by rewrite append_cons, IH]. Qed.

Lemma append_assoc (a b c : string) : (a +:+ b) +:+ c = a +:+ (b +:+ c).
Proof. induction a as [|x a IH]; [done | by rewrite !append_cons, IH]. Qed.

Lemma length_append (a b : string) :
  String.length (a +:+ b) = (String.length a + String.length b)%nat.
Proof.
  induction a as [|x a IH]; [done|]. rewrite append_cons. simpl. by rewrite IH.
Qed.

Lemma rev_app_spec (s acc : string) :
  String.rev_app s acc = String.rev s +:+ acc.
Proof.
  revert acc. induction s as [|c s IH]; intros acc; [done|].
  unfold String.rev. simpl. rewrite (IH (String c acc)), (IH (String c "")).
  by rewrite append_assoc.
Qed.

Lemma rev_cons (c : ascii) (s : string) :
  String.rev (String c s) = String.rev s +:+ String c "".
Proof. unfold String.rev at 1. simpl. apply rev_app_spec. Qed.

Lemma rev_append (a b : string) :
  String.rev (a +:+ b) = String.rev b +:+ String.rev a.
Proof.
  induction a as [|x a IH].
  - by rewrite append_nil_l, append_nil_r.
  - by rewrite append_cons, !rev_cons, IH, append_assoc.
Qed.

Lemma rev_involutive (s : string) : String.rev (String.rev s) = s.
Proof.
  induction s as [|c s IH]; [done|].
  by rewrite rev_cons, rev_append, IH.
Qed.

Lemma rev_length (s : string) : String.length (String.rev s) = String.length s.
Proof.
  induction s as [|c s IH]; [done|].
  rewrite rev_cons, length_append, IH. simpl. lia.
Qed.

Lemma prefix_spec (p s : string) :
  String.prefix p s = true ↔ ∃ r, s = p +:+ r.
Proof.
  revert s. induction p as [|a p IH]; intros s.
  - destruct s; simpl; (split; [intros _; by eexists | done]).
  - destruct s as [|b s]; simpl.
    + split; [done | by intros [r ?]].
    + destruct (ascii_dec a b) as [->|Hne].
      * rewrite IH. split; intros [r Hr]; exists r.
        -- by rewrite append_cons, Hr.
        -- rewrite append_cons in Hr. congruence.
      * split; [done|]. intros [r Hr]. rewrite append_cons in Hr. congruence.
Qed.

Lemma startswith_spec (p s : string) :
  startswith p s = true ↔ ∃ r, s = p +:+ r.
Proof. apply prefix_spec. Qed.

Lemma endswith_spec (p s : string) :
  endswith p s = true ↔ ∃ r, s = r +:+ p.
Proof.
  unfold endswith. rewrite prefix_spec. split.
  - intros [r Hr]. exists (String.rev r).
    by rewrite <- (rev_involutive s), Hr, rev_append, rev_involutive.
  - intros [r ->]. exists (String.rev r). apply rev_append.
Qed.

Lemma append_inj_r (a b p : string) : a +:+ p = b +:+ p → a = b.
Proof.
  intros H. apply (f_equal String.rev) in H. rewrite !rev_append in H.
  apply (inj (String.app (String.rev p))) in H.
  by rewrite <- (rev_involutive a), H, rev_involutive.
Qed.

Lemma substring_prefix (a b : string) :
  String.substring 0 (String.length a) (a +:+ b) = a.
Proof.
  induction a as [|x a IH]; [by destruct b|].
  rewrite append_cons. simpl. by rewrite IH.
Qed.

Lemma drop_last_append (r p : string) :
  drop_last (String.length p) (r +:+ p) = r.
Proof.
  unfold drop_last. rewrite length_append.
  replace (String.length r + String.length p - String.length p)%nat
    with (String.length r) by lia.
  apply substring_prefix.
Qed.

Lemma glob_match_suffix (suffix name : string) :
  glob_match "" suffix name = true ↔ ∃ r, name = r +:+ suffix.
Proof.
  unfold glob_match. rewrite !andb_true_iff, endswith_spec, Nat.leb_le.
  split; [by intros [[_ ?] _]|].
  intros [r ->]. split_and!; [|by exists r|].
  { apply startswith_spec. by exists (r +:+ suffix). }
  rewrite length_append. simpl. lia.
Qed.

End StringLemmas.

(** ** Digits, [split] and [int()] *)
Module NumberLemmas.
Import StringLemmas StringFacts VersionFacts.

Lemma all_chars_append (f : ascii → bool) (a b : string) :
  all_chars f (a +:+ b) = all_chars f a && all_chars f b.
Proof.
  induction a as [|c a IH]; [done|].
  rewrite append_cons. simpl. by rewrite IH, andb_assoc.
Qed.

Lemma all_chars_rev (f : ascii → bool) (s : string) :
  all_chars f (String.rev s) = all_chars f s.
Proof.
  induction s as [|c s IH]; [done|].
  rewrite rev_cons, all_chars_append, IH. simpl.
  by rewrite andb_true_r, andb_comm.
Qed.

Lemma all_chars_impl (f g : ascii → bool) (s : string) :
  (∀ c, f c = true → g c = true) → all_chars f s = true → all_chars g s = true.
Proof.
  intros Hfg. induction s as [|c s IH]; [done|]. simpl.
  intros [Hc Hs]%andb_true_iff. by rewrite (Hfg c Hc), IH.
Qed.

Lemma all_digits_all_chars (s : string) : all_digits s = all_chars is_digit s.
Proof. induction s as [|c s IH]; [done|]. simpl. by rewrite IH. Qed.

Lemma is_number_spec (s : string) :
  is_number s = true ↔ s ≠ "" ∧ all_chars is_digit s = true.
Proof.
  unfold is_number. rewrite <- all_digits_all_chars.
  destruct s; [split; [done | by intros [? _]] | split; [done | by intros [_ ?]]].
Qed.

Lemma digit_not_space (c : ascii) : is_digit c = true → is_space c = false.
Proof.
  destruct c as [[] [] [] [] [] [] [] []]; vm_compute; done.
Qed.

Lemma digit_not_dot (c : ascii) : is_digit c = true → negb (Ascii.eqb c ".") = true.
Proof.
  destruct c as [[] [] [] [] [] [] [] []]; vm_compute; done.
Qed.

Lemma digit_is_digit_char (c : ascii) : is_digit c = true → is_digit_char c = true.
Proof. unfold is_digit_char. by intros ->. Qed.

Lemma digits_no_dot (s : string) :
  all_chars is_digit s = true → no_char "." s = true.
Proof. apply all_chars_impl, digit_not_dot. Qed.

Lemma is_number_isdigit (s : string) : is_number s = true → isdigit s = true.
Proof.
  intros [Hne Hs]%is_number_spec. unfold isdigit.
  rewrite (all_chars_impl _ _ _ digit_is_digit_char Hs), andb_true_r.
  destruct s; done.
Qed.

(** *** [split] *)

Lemma split_no_sep (sep : ascii) (s : string) :
  no_char sep s = true → split sep s = [s].
Proof.
  induction s as [|c s IH]; [done|]. simpl.
  intros [Hc Hs]%andb_true_iff. apply negb_true_iff in Hc.
  by rewrite Hc, (IH Hs).
Qed.

Lemma split_append (sep : ascii) (a b : string) :
  no_char sep a = true →
  split sep (a +:+ String sep b) = a :: split sep b.
Proof.
  induction a as [|c a IH].
  - intros _. rewrite append_nil_l. simpl. by rewrite Ascii.eqb_refl.
  - rewrite append_cons. simpl.
    intros [Hc Ha]%andb_true_iff. apply negb_true_iff in Hc.
    by rewrite Hc, (IH Ha).
Qed.

Lemma split_head (sep : ascii) (c : ascii) (s piece : string)
    (pieces : list string) :
  split sep (String c s) = piece :: pieces →
  piece = "" ∨ ∃ piece', piece = String c piece'.
Proof.
  simpl. destruct (Ascii.eqb c sep).
  - intros [= <- _]. by left.
  - destruct (split sep s); intros [= <- _]; right; by eexists.
Qed.

(** *** [strip] and [int()] *)

Lemma lstrip_id (c : ascii) (s : string) :
  is_space c = false → lstrip (String c s) = String c s.
Proof. intros H. cbn [lstrip]. by rewrite H. Qed.

Lemma strip_id (c d : ascii) (s : string) :
  is_space c = false → is_space d = false →
  strip (String c s +:+ String d "") = String c s +:+ String d "".
Proof.
  intros Hc Hd. unfold strip. rewrite append_cons, (lstrip_id c _ Hc).
  rewrite <- append_cons, rev_append.
  change (String.rev (String d "")) with (String d "").
  rewrite append_cons, (lstrip_id d _ Hd), <- append_cons.
  rewrite <- (rev_involutive (String d "")) at 1.
  by rewrite <- rev_append, rev_involutive.
Qed.

Lemma strip_single (c : ascii) :
  is_space c = false → strip (String c "") = String c "".
Proof.
  intros Hc. unfold strip. rewrite (lstrip_id c "" Hc).
  change (String.rev (String c "")) with (String c "").
  by rewrite (lstrip_id c "" Hc).
Qed.

Lemma last_char (c : ascii) (s : string) :
  ∃ r d, String c s = r +:+ String d "".
Proof.
  revert c. induction s as [|c' s IH]; intros c.
  - by exists "", c.
  - destruct (IH c') as (r & d & ->). by exists (String c r), d.
Qed.

(** A string that begins and ends with a character that is not white
    space is left as it is by [strip]. *)
Lemma strip_bounded (s : string) (c d : ascii) (r r' : string) :
  s = String c r → s = r' +:+ String d "" →
  is_space c = false → is_space d = false → strip s = s.
Proof.
  intros Hc Hd Hsc Hsd. destruct r' as [|c' r'].
  - rewrite append_nil_l in Hd. subst s. injection Hd as -> ->.
    by apply strip_single.
  - rewrite Hd. rewrite append_cons in Hd. rewrite Hc in Hd.
    injection Hd as -> _. by apply strip_id.
Qed.

Lemma strip_digits (s : string) : all_chars is_digit s = true → strip s = s.
Proof.
  intros Hs. destruct s as [|c s]; [done|].
  destruct (last_char c s) as (r & d & Hr).
  apply (strip_bounded _ c d s r); [done|done| |].
  - simpl in Hs. apply andb_true_iff in Hs as [Hc _]. by apply digit_not_space.
  - rewrite Hr, all_chars_append in Hs. simpl in Hs.
    apply andb_true_iff in Hs as [_ Hd]. rewrite andb_true_r in Hd.
    by apply digit_not_space.
Qed.

Lemma decimal_digits (s : string) (acc : Z) (after_digit : bool) :
  all_chars is_digit s = true → s ≠ "" ∨ after_digit = true →
  ∃ n, decimal acc after_digit s = Some n.
Proof.
  revert acc after_digit. induction s as [|c s IH]; intros acc after_digit Hs Hne.
  - destruct Hne as [Hne| ->]; [done|]. by exists acc.
  - simpl in *. apply andb_true_iff in Hs as [Hc Hs]. rewrite Hc.
    apply IH; [done | by right].
Qed.

(** Digits followed by a character that is neither a digit nor an
    underscore are not a number. *)
Lemma decimal_stops (s rest : string) (c : ascii) (acc : Z) (after_digit : bool) :
  all_chars is_digit s = true →
  is_digit c = false → Ascii.eqb c "_" = false →
  decimal acc after_digit (s +:+ String c rest) = None.
Proof.
  intros Hs Hc Hu. revert acc after_digit.
  induction s as [|d s IH]; intros acc after_digit.
  - rewrite append_nil_l. simpl. by rewrite Hc, Hu.
  - rewrite append_cons. simpl in *. apply andb_true_iff in Hs as [Hd Hs].
    rewrite Hd. by apply IH.
Qed.

Lemma py_int_unsigned (c : ascii) (s : string) :
  is_digit c = true → strip (String c s) = String c s →
  py_int (String c s) = decimal 0 false (String c s).
Proof.
  intros Hc Hstrip. unfold py_int. rewrite Hstrip.
  destruct c as [[] [] [] [] [] [] [] []]; try reflexivity;
    vm_compute in Hc; discriminate.
Qed.

Lemma py_int_number (s : string) :
  is_number s = true → ∃ n, py_int s = Some n.
Proof.
  intros [Hne Hs]%is_number_spec. destruct s as [|c s]; [done|].
  rewrite py_int_unsigned.
  - apply decimal_digits; [done | by left].
  - simpl in Hs. by apply andb_true_iff in Hs as [? _].
  - by apply strip_digits.
Qed.

Lemma py_int_snapshot (s : string) :
  is_number s = true → py_int (s +:+ "-SNAPSHOT") = None.
Proof.
  intros [Hne Hs]%is_number_spec. destruct s as [|c s]; [done|].
  assert (is_digit c = true) as Hc
    by (simpl in Hs; by apply andb_true_iff in Hs as [? _]).
  rewrite append_cons. rewrite py_int_unsigned; [|done|].
  - rewrite <- append_cons. by apply decimal_stops.
  - rewrite <- append_cons.
    apply (strip_bounded _ c "T" (s +:+ "-SNAPSHOT")
             (String c s +:+ "-SNAPSHO")); [done| | |done].
    + by rewrite append_assoc.
    + by apply digit_not_space.
Qed.

End NumberLemmas.

(** ** Release notes: further properties *)
Module NotesExtras.
Import CollectReleaseNotes NotesFacts NotesProofs NotesTheorems.
Import StringLemmas StringFacts NumberLemmas VersionFacts.

(** *** Tags and versions *)

Lemma tag_with_digits_not_v (r a : string) (rest : list string) :
  split "." r = a :: rest → isdigit a = true → startswith "v" r = false.
Proof.
  intros Hsplit Ha. destruct r as [|c r].
  - simpl in Hsplit. injection Hsplit as <- _. done.
  - destruct (split_head _ _ _ _ _ Hsplit) as [->|[a' ->]]; [done|].
    unfold isdigit in Ha. simpl in Ha.
    apply andb_true_iff in Ha as [Hc _].
    destruct c as [[] [] [] [] [] [] [] []]; try reflexivity;
      vm_compute in Hc; discriminate.
Qed.

(** [version_to_tag] undoes [tag_to_version] on every tag that
    [get_git_tags] keeps and that starts with [v], and [tag_to_version]
    undoes [version_to_tag] on every version that does not start with [v]. *)
Theorem tag_version_round_trip (git : git_listing) (tag version : string) :
  (tag ∈ (get_git_tags git).2 → startswith "v" tag = true →
   version_to_tag (tag_to_version tag) = tag) ∧
  (startswith "v" version = false →
   tag_to_version (version_to_tag version) = version).
Proof.
  split.
  - intros Hin Hv. unfold tag_to_version. rewrite Hv.
    apply startswith_spec in Hv as [r ->].
    change (drop_first ("v" +:+ r)) with r.
    assert (startswith "v" r = false) as Hr.
    { destruct git as [rc lines|]; [|by apply elem_of_nil in Hin].
      simpl in Hin. destruct (negb (rc =? 0)%Z); [by apply elem_of_nil in Hin|].
      apply list_elem_of_filter in Hin as [[Hlen Hdigits] _].
      change (drop_first ("v" +:+ r)) with r in *.
      destruct (split "." r) as [|a rest] eqn:Hsplit; [done|].
      simpl in Hdigits. apply andb_true_iff in Hdigits as [Ha _].
      by eapply tag_with_digits_not_v. }
    unfold version_to_tag. by rewrite Hr.
  - intros Hv. unfold version_to_tag. rewrite Hv.
    unfold tag_to_version.
    assert (startswith "v" ("v" +:+ version) = true) as ->
      by (apply startswith_spec; by eexists).
    reflexivity.
Qed.

Lemma tag_version_round_trip_witness :
  version_to_tag (tag_to_version "v1.8.0") = "v1.8.0" ∧
  tag_to_version (version_to_tag "1.8.0") = "1.8.0".
Proof.
  destruct (tag_version_round_trip (GitOutput 0 ["v1.8.0"]) "v1.8.0" "1.8.0")
    as [Htag Hversion].
  split.
  - apply Htag; [|vm_compute; reflexivity].
    apply list_elem_of_In. vm_compute. auto.
  - apply Hversion. vm_compute. reflexivity.
Defined.

(** When [git] is missing or ends with an error, no tag is known: nothing
    is reported missing and the check ends with status 0, also in strict
    mode and whatever the records are. *)
Theorem check_passes_without_git (git : git_listing) (dir : notes_dir)
    (warn_only : bool) :
  git = GitMissing ∨ (∃ rc lines, git = GitOutput rc lines ∧ rc ≠ 0%Z) →
  (get_git_tags git).2 = [] ∧
  missing_versions git dir = [] ∧
  (check_missing_notes git dir warn_only).2 = 0%Z.
Proof.
  intros Hgit.
  assert ((get_git_tags git).2 = []) as Htags.
  { destruct Hgit as [->|(rc & lines & -> & Hrc)]; [done|].
    simpl. by destruct (Z.eqb_spec rc 0). }
  assert (missing_versions git dir = []) as Hmissing
    by (unfold missing_versions; by rewrite Htags).
  split_and!; [done..|].
  unfold check_missing_notes. by rewrite Hmissing.
Qed.

Lemma check_passes_without_git_witness :
  (get_git_tags GitMissing).2 = [] ∧
  missing_versions GitMissing (Some ∅) = [] ∧
  (check_missing_notes GitMissing (Some ∅) false).2 = 0%Z.
Proof. apply (check_passes_without_git GitMissing (Some ∅) false). by left. Defined.

Lemma split_version (major minor last : string) :
  is_number major = true → is_number minor = true →
  no_char "." last = true →
  split "." (major +:+ "." +:+ minor +:+ "." +:+ last) = [major; minor; last].
Proof.
  intros [_ Hmajor]%is_number_spec [_ Hminor]%is_number_spec Hlast.
  rewrite !(append_cons "." ""), !append_nil_l.
  rewrite split_append by (by apply digits_no_dot).
  rewrite split_append by (by apply digits_no_dot).
  by rewrite split_no_sep.
Qed.

Lemma version_text_tail (major minor patch : string) (snapshot : bool) :
  drop_first (version_text major minor patch snapshot false)
  = major +:+ "." +:+ minor +:+ "." +:+ patch
      +:+ (if snapshot then "-SNAPSHOT" else "").
Proof.
  unfold version_text. rewrite append_cons, append_nil_l. cbn [drop_first].
  by rewrite append_nil_r.
Qed.

Lemma patch_no_dot (patch : string) (snapshot : bool) :
  is_number patch = true →
  no_char "." (patch +:+ (if snapshot then "-SNAPSHOT" else "")) = true.
Proof.
  intros [_ Hpatch]%is_number_spec. unfold no_char.
  rewrite all_chars_append. fold (no_char "." patch).
  rewrite (digits_no_dot _ Hpatch). by destruct snapshot.
Qed.

(** Among the tags that [validate_version] accepts, [get_git_tags] keeps
    the plain ones [vX.Y.Z] and drops the [-SNAPSHOT] ones, so a snapshot
    tag is never reported as lacking release notes. *)
Theorem release_tags_kept (lines : list string) (major minor patch : string)
    (snapshot : bool) :
  is_number major = true → is_number minor = true → is_number patch = true →
  version_text major minor patch snapshot false
    ∈ (get_git_tags (GitOutput 0 lines)).2
  ↔ version_text major minor patch snapshot false ∈ lines ∧ snapshot = false.
Proof.
  intros Hmajor Hminor Hpatch. cbn [get_git_tags Z.eqb negb snd].
  rewrite list_elem_of_filter, version_text_tail.
  rewrite <- !append_assoc, !append_assoc.
  rewrite (split_version major minor _ Hmajor Hminor
             (patch_no_dot patch snapshot Hpatch)).
  cbn [length forallb].
  rewrite (is_number_isdigit _ Hmajor), (is_number_isdigit _ Hminor).
  cbn [andb]. rewrite andb_true_r.
  destruct snapshot.
  - assert (isdigit (patch +:+ "-SNAPSHOT") = false) as ->.
    { unfold isdigit. rewrite all_chars_append.
      replace (all_chars is_digit_char "-SNAPSHOT") with false
        by (vm_compute; reflexivity).
      by rewrite andb_false_r, andb_false_r. }
    split; [by intros [[_ ?] _] | by intros [_ ?]].
  - rewrite append_nil_r, (is_number_isdigit _ Hpatch). tauto.
Qed.

Lemma release_tags_kept_witness :
  version_text "1" "8" "0" false false
    ∈ (get_git_tags (GitOutput 0 ["v1.8.0"; "v1.9.0-SNAPSHOT"])).2
  ↔ version_text "1" "8" "0" false false ∈ ["v1.8.0"; "v1.9.0-SNAPSHOT"]
    ∧ false = false.
Proof.
  apply (release_tags_kept ["v1.8.0"; "v1.9.0-SNAPSHOT"] "1" "8" "0" false);
    vm_compute; reflexivity.
Defined.

(** Every plain version [vX.Y.Z] that [validate_version] accepts gives a
    record name whose sort key is a list of three integers; a
    [-SNAPSHOT] version gives a name that has no sort key. *)
Theorem release_version_sort_key (major minor patch : string) :
  is_number major = true → is_number minor = true → is_number patch = true →
  MakeRelease.validate_version (version_text major minor patch false false) = true ∧
  MakeRelease.validate_version (version_text major minor patch true false) = true ∧
  (∃ a b c,
     version_key (tag_to_version (version_text major minor patch false false))
     = Ok [a; b; c]) ∧
  parses (tag_to_version (version_text major minor patch true false)) = false.
Proof.
  intros Hmajor Hminor Hpatch.
  assert (∀ snapshot,
            tag_to_version (version_text major minor patch snapshot false)
            = major +:+ "." +:+ minor +:+ "." +:+ patch
                +:+ (if snapshot then "-SNAPSHOT" else "")) as Htail.
  { intros snapshot. unfold tag_to_version.
    assert (startswith "v" (version_text major minor patch snapshot false) = true)
      as -> by (apply startswith_spec; by eexists).
    apply version_text_tail. }
  split_and!.
  - apply VersionProofs.validate_version_shape.
    by exists major, minor, patch, false, false.
  - apply VersionProofs.validate_version_shape.
    by exists major, minor, patch, true, false.
  - destruct (py_int_number _ Hmajor) as [a Ha].
    destruct (py_int_number _ Hminor) as [b Hb].
    destruct (py_int_number _ Hpatch) as [c Hc].
    exists a, b, c. rewrite Htail, append_nil_r. unfold version_key.
    rewrite (split_version major minor patch Hmajor Hminor
               (digits_no_dot _ (proj2 (proj1 (is_number_spec _) Hpatch)))).
    simpl. by rewrite Ha, Hb, Hc.
  - rewrite Htail.
    apply (version_key_rejects _ (patch +:+ "-SNAPSHOT")).
    + rewrite (split_version major minor _ Hmajor Hminor
                 (patch_no_dot patch true Hpatch)).
      apply list_elem_of_In. simpl. auto.
    + by apply py_int_snapshot.
Qed.

Lemma release_version_sort_key_witness :
  MakeRelease.validate_version (version_text "1" "10" "0" false false) = true ∧
  MakeRelease.validate_version (version_text "1" "10" "0" true false) = true ∧
  (∃ a b c,
     version_key (tag_to_version (version_text "1" "10" "0" false false))
     = Ok [a; b; c]) ∧
  parses (tag_to_version (version_text "1" "10" "0" true false)) = false.
Proof.
  apply (release_version_sort_key "1" "10" "0"); vm_compute; reflexivity.
Defined.

(** *** Record files and the versions they stand for *)

Lemma stem_of_record (v : string) : v ≠ "" → stem (v +:+ ".json") = v.
Proof.
  intros Hv. unfold stem.
  destruct (String.eqb_spec (v +:+ ".json") ".json") as [Heq|_].
  - apply (f_equal String.length) in Heq. rewrite length_append in Heq.
    destruct v; [done|]. simpl in Heq. lia.
  - apply (drop_last_append v ".json").
Qed.

Lemma startswith_append (p v rest : string) :
  v ≠ "" → String.length p = 1%nat →
  startswith p (v +:+ rest) = startswith p v.
Proof.
  intros Hv Hp. destruct p as [|a [|b p]]; try done.
  destruct v as [|c v]; [done|]. rewrite append_cons. simpl.
  destruct (ascii_dec a c); [|done]. by destruct v, rest.
Qed.

(** A version other than the empty string and [.json] is among the
    existing versions exactly when the directory has the entry
    [<version>.json] and the version does not start with an underscore:
    what [get_existing_json_versions] lists is what [load_release_notes]
    will look for. *)
Theorem existing_version_has_file (entries : gmap string notes_entry)
    (v : string) :
  v ≠ "" → v ≠ ".json" →
  v ∈ get_existing_json_versions (Some entries)
  ↔ is_Some (entries !! (v +:+ ".json")) ∧ startswith "_" v = false.
Proof.
  intros Hne Hnj. unfold get_existing_json_versions.
  rewrite elem_of_list_to_set, list_elem_of_fmap. split.
  - intros (name & -> & [Hund [Hsome Hglob]%InjectProofs.glob_names_elem]%list_elem_of_filter).
    apply glob_match_suffix in Hglob as [r ->].
    assert (r ≠ "") as Hr by (intros ->; by apply Hnj).
    rewrite (stem_of_record r Hr).
    by rewrite (startswith_append "_" r ".json" Hr eq_refl) in Hund.
  - intros [Hsome Hund]. exists (v +:+ ".json").
    split; [by rewrite stem_of_record|].
    apply list_elem_of_filter. split.
    + by rewrite (startswith_append "_" v ".json" Hne eq_refl).
    + apply InjectProofs.glob_names_elem. split; [done|].
      apply glob_match_suffix. by exists v.
Qed.

Lemma existing_version_has_file_witness :
  "1.9.0" ∈ get_existing_json_versions two_records
  ↔ is_Some (default ∅ two_records !! ("1.9.0" +:+ ".json"))
    ∧ startswith "_" "1.9.0" = false.
Proof.
  apply (existing_version_has_file (default ∅ two_records) "1.9.0"); discriminate.
Defined.

(** *** An explicit subset of versions *)

(** With an explicit, non-empty list of versions nothing is sorted: the
    requested versions that have a record are rendered in the order they
    were asked for, the others are skipped, and record files with names
    that are not versions do no harm. *)
Theorem aggregate_subset (py_format : json → string) (now : string)
    (dir : notes_dir) (v : string) (vs : list string) :
  forallb (renderable py_format dir)
          (filter (λ x, x ∈ get_existing_json_versions dir) (v :: vs)) = true →
  (generate_full_release_notes py_format now dir (Some (v :: vs))).2
  = Ok (document py_format now dir
          (filter (λ x, x ∈ get_existing_json_versions dir) (v :: vs))).
Proof.
  intros Hrender. unfold generate_full_release_notes, document, sections.
  destruct (filter (λ x, x ∈ get_existing_json_versions dir) (v :: vs))
    as [|w chosen] eqn:Hchosen; [done|].
  destruct (render_versions_all py_format dir (w :: chosen) (header now))
    as [log ->]; [|done].
  apply Forall_forall. intros x Hx.
  rewrite forallb_forall in Hrender. apply Hrender. by apply list_elem_of_In.
Qed.

Lemma aggregate_subset_witness :
  (generate_full_release_notes simple_format "2026-01-15 10:00:00"
     snapshot_record (Some ["9.9.9"; "1.7.0"])).2
  = Ok (document simple_format "2026-01-15 10:00:00" snapshot_record
          (filter (λ x, x ∈ get_existing_json_versions snapshot_record)
                  ["9.9.9"; "1.7.0"])).
Proof.
  apply (aggregate_subset simple_format _ snapshot_record "9.9.9" ["1.7.0"]).
  vm_compute. reflexivity.
Defined.

(** *** Records as objects *)

Lemma lookup_field_elem (fields : list (string * json)) (k : string) (v : json) :
  NoDup fields.*1 → lookup_field k fields = Some v ↔ (k, v) ∈ fields.
Proof.
  induction fields as [|[k' v'] fields IH]; intros Hnd.
  - split; [done | by intros ?%elem_of_nil].
  - rewrite fmap_cons in Hnd. apply NoDup_cons in Hnd as [Hk' Hnd].
    cbn [lookup_field fst].
    destruct (String.eqb_spec k' k) as [->|Hne].
    + split.
      * intros [= ->]. by left.
      * intros [[= ->]|Hin]%elem_of_cons; [done|].
        exfalso. apply Hk'. apply list_elem_of_fmap. by exists (k, v).
    + rewrite (IH Hnd). split; [by right|].
      intros [[= ? _]|Hin]%elem_of_cons; [congruence | done].
Qed.

Lemma lookup_field_perm (f f' : list (string * json)) (k : string) :
  NoDup f.*1 → f ≡ₚ f' → lookup_field k f = lookup_field k f'.
Proof.
  intros Hnd Hperm.
  assert (NoDup f'.*1) as Hnd' by (by rewrite <- Hperm).
  destruct (lookup_field k f) as [v|] eqn:Hf.
  - apply (lookup_field_elem f k v Hnd) in Hf. rewrite Hperm in Hf.
    by apply (lookup_field_elem f' k v Hnd') in Hf.
  - destruct (lookup_field k f') as [v'|] eqn:Hf'; [|done].
    apply (lookup_field_elem f' k v' Hnd') in Hf'. rewrite <- Hperm in Hf'.
    apply (lookup_field_elem f k v' Hnd) in Hf'. congruence.
Qed.

(** The order in which a record lists its fields does not matter: the
    validation errors and the rendered text are the same. *)
Theorem record_field_order_irrelevant (py_format : json → string)
    (f f' : list (string * json)) (version : string) :
  NoDup f.*1 → f ≡ₚ f' →
  validate_json py_format (JObj f) version
  = validate_json py_format (JObj f') version ∧
  generate_markdown_for_version py_format (JObj f)
  = generate_markdown_for_version py_format (JObj f').
Proof.
  intros Hnd Hperm.
  pose proof (λ k, lookup_field_perm f f' k Hnd Hperm) as Hsame.
  split.
  - unfold validate_json, get, py_in, getitem. simpl. by rewrite !Hsame.
  - unfold generate_markdown_for_version, get. by rewrite !Hsame.
Qed.

Lemma record_field_order_irrelevant_witness :
  validate_json simple_format
    (JObj [("version", JStr "1.8.0"); ("tag", JStr "v1.8.0")]) "1.8.0"
  = validate_json simple_format
      (JObj [("tag", JStr "v1.8.0"); ("version", JStr "1.8.0")]) "1.8.0" ∧
  generate_markdown_for_version simple_format
    (JObj [("version", JStr "1.8.0"); ("tag", JStr "v1.8.0")])
  = generate_markdown_for_version simple_format
      (JObj [("tag", JStr "v1.8.0"); ("version", JStr "1.8.0")]).
Proof.
  apply (record_field_order_irrelevant simple_format
           [("version", JStr "1.8.0"); ("tag", JStr "v1.8.0")]
           [("tag", JStr "v1.8.0"); ("version", JStr "1.8.0")] "1.8.0").
  - apply NoDup_ListNoDup. vm_compute. repeat constructor; simpl; intuition discriminate.
  - apply Permutation_swap.
Defined.

(** [validate_json] finds nothing to report exactly for an object whose
    [version] is the expected string, that has a [date], and whose [tag]
    is a string starting with [v]. *)
Theorem validate_json_accepts (py_format : json → string) (data : json)
    (version : string) :
  validate_json py_format data version = Ok []
  ↔ ∃ fields tag,
      data = JObj fields ∧
      lookup_field "version" fields = Some (JStr version) ∧
      is_Some (lookup_field "date" fields) ∧
      lookup_field "tag" fields = Some (JStr tag) ∧
      startswith "v" tag = true.
Proof.
  split.
  - destruct data as [|b|zero text|s|items|fields];
      try (unfold validate_json, get; simpl; discriminate).
    unfold validate_json, get, py_in, getitem. simpl.
    destruct (lookup_field "version" fields) as [found|] eqn:Hversion;
      destruct (lookup_field "date" fields) as [date|] eqn:Hdate;
      destruct (lookup_field "tag" fields) as [tag|] eqn:Htag;
      simpl; try discriminate;
      try (destruct (is_str version found); discriminate);
      try (destruct tag; simpl; try discriminate;
           destruct (startswith "v" _); simpl;
           try destruct (is_str version _); discriminate).
    destruct found as [| | |s| |]; simpl;
      try (destruct tag; simpl; try discriminate;
           destruct (startswith "v" _); discriminate).
    destruct (String.eqb_spec s version) as [->|];
      [|destruct tag; simpl; try discriminate;
        destruct (startswith "v" _); discriminate].
    destruct tag as [| | |t| |]; simpl; try discriminate.
    destruct (startswith "v" t) eqn:Ht; [|discriminate].
    intros _. exists fields, t. split_and!; done.
  - intros (fields & tag & -> & Hversion & [date Hdate] & Htag & Hv).
    unfold validate_json, get, py_in, getitem. simpl.
    rewrite Hversion, Hdate, Htag. simpl. by rewrite String.eqb_refl, Hv.
Qed.

(** *** The order of versions *)

Lemma insert_desc_front (x : list Z * string) (l : list (list Z * string)) :
  Forall (key_geb_pair x) l → insert_desc x l = x :: l.
Proof.
  destruct l as [|y l]; [done|]. intros [Hy _]%Forall_cons.
  simpl. unfold key_geb_pair in Hy. by rewrite Hy.
Qed.

Lemma sort_desc_sorted_id (l : list (list Z * string)) :
  StronglySorted key_geb_pair l → sort_desc l = l.
Proof.
  induction 1 as [|x l Hl IH Hx]; [done|].
  simpl. fold (sort_desc l). rewrite IH. by apply insert_desc_front.
Qed.

(** Sorting is stable on its own result: a list of versions that is
    already newest first comes back as it is, ties included. *)
Theorem sorted_versions_idempotent (existing order : list string) :
  sorted_versions existing = Ok order → sorted_versions order = Ok order.
Proof.
  unfold sorted_versions.
  destruct (mapM version_key existing) as [keys|e] eqn:Hkeys; [|discriminate].
  simpl. intros [= <-]. apply mapM_ok in Hkeys.
  set (z := sort_desc (zip keys existing)).
  assert (Forall (λ p, version_key p.2 = Ok p.1) z) as Hz.
  { unfold z. rewrite sort_desc_perm.
    induction Hkeys as [|v k l ks Hv _ IH]; simpl; constructor; done. }
  assert (mapM version_key z.*2 = Ok z.*1) as ->.
  { apply mapM_ok. clear -Hz.
    induction Hz as [|[k v] l Hkv _ IH]; simpl; constructor; done. }
  simpl. rewrite zip_fst_snd.
  by rewrite (sort_desc_sorted_id z (sort_desc_sorted _)).
Qed.

Lemma sorted_versions_idempotent_witness :
  sorted_versions ["2.0"; "1.10.0"; "1.10"; "1.9.0"]
  = Ok ["2.0"; "1.10.0"; "1.10"; "1.9.0"].
Proof.
  apply (sorted_versions_idempotent ["1.9.0"; "1.10.0"; "2.0"; "1.10"]).
  vm_compute. reflexivity.
Defined.

End NotesExtras.

(** ** The release script: further properties *)
Module ReleaseExtras.
Import MakeRelease TreeFacts TreeProofs InjectFacts InjectProofs BuildFacts.
Import BuildTheorems StringLemmas EnvironmentFacts.

(** *** [main] *)

(** The stages run only for a version that passes [validate_version], and
    [main] then ends with their status after printing what they print;
    for any other command line what [main] does is independent of the
    stages. *)
Theorem main_runs_stages_only_when_valid
    (pipeline : string → list message * Z) (argv : list string) :
  (∀ prog version rest,
     argv = prog :: version :: rest → validate_version version = true →
     (main pipeline argv).2 = (pipeline version).2 ∧
     ∃ before, (main pipeline argv).1 = before ++ (pipeline version).1) ∧
  ((∀ prog version rest,
      argv = prog :: version :: rest → validate_version version = false) →
   ∀ other, main other argv = main pipeline argv).
Proof.
  split.
  - intros prog version rest -> Hvalid. unfold main.
    destruct (String.eqb_spec version "-h") as [->|_]; [by vm_compute in Hvalid|].
    destruct (String.eqb_spec version "--help") as [->|_];
      [by vm_compute in Hvalid|].
    rewrite Hvalid. cbn [orb negb]. destruct (pipeline version) as [out status].
    split; [done|]. cbn [fst]. eexists. by rewrite !app_assoc.
  - intros Hinvalid other. destruct argv as [|prog [|version rest]]; [done..|].
    unfold main. rewrite (Hinvalid prog version rest eq_refl). cbn [negb].
    by destruct (String.eqb version "-h" || String.eqb version "--help").
Qed.

Lemma main_runs_stages_only_when_valid_witness :
  (main (λ v, ([Info ("building " +:+ v)], 0%Z)) ["make-release.py"; "v1.2.3"]).2
  = 0%Z ∧
  main (λ _, ([], 7%Z)) ["make-release.py"; "1.2.3"]
  = main (λ v, ([Info ("building " +:+ v)], 0%Z)) ["make-release.py"; "1.2.3"].
Proof.
  destruct (main_runs_stages_only_when_valid
              (λ v, ([Info ("building " +:+ v)], 0%Z))
              ["make-release.py"; "v1.2.3"]) as [Hvalid _].
  destruct (main_runs_stages_only_when_valid
              (λ v, ([Info ("building " +:+ v)], 0%Z))
              ["make-release.py"; "1.2.3"]) as [_ Hinvalid].
  split.
  - destruct (Hvalid "make-release.py" "v1.2.3" []) as [-> _];
      [reflexivity | vm_compute; reflexivity | reflexivity].
  - apply Hinvalid. intros prog version rest [= <- <- <-].
    vm_compute. reflexivity.
Defined.

(** *** [run_goreleaser] *)

Lemma git_tag_delete_other (version t : string) (w : world) :
  t ≠ version → t ∈ tags (git_tag_delete version w).1 ↔ t ∈ tags w.
Proof.
  intros Hne. unfold git_tag_delete.
  destruct (decide (version ∈ tags w)); cbn [fst tags]; [|done].
  rewrite elem_of_difference, elem_of_singleton. tauto.
Qed.

Lemma git_tag_delete_dist (version : string) (w : world) :
  dist (git_tag_delete version w).1 = dist w.
Proof. unfold git_tag_delete. by destruct (decide (version ∈ tags w)). Qed.

(** Whatever the build tool does, [run_goreleaser] leaves all tags other
    than the version's as they were; it returns whether the tool exited
    with 0, or lets [FileNotFoundError] through; and what was in [dist/]
    before is gone: [dist/] holds what the tool left, or nothing when the
    tool did not start. *)
Theorem run_goreleaser_effects (version : string) (build : tool_run)
    (w : world) :
  (∀ t, t ≠ version →
        t ∈ tags (final (run_goreleaser version build w)) ↔ t ∈ tags w) ∧
  returned (run_goreleaser version build w)
  = match ended build with
    | Exited returncode => Ok (returncode =? 0)%Z
    | NotFound => Raise FileNotFoundError
    end ∧
  dist (final (run_goreleaser version build w))
  = match ended build with
    | Exited _ => dist_after build
    | NotFound => None
    end.
Proof.
  rewrite run_goreleaser_unfold. cbv zeta.
  assert (∀ t, t ≠ version → t ∈ tags (tagged version w) ↔ t ∈ tags w) as Htagged.
  { intros t Hne. unfold tagged. cbn [tags].
    rewrite elem_of_union, elem_of_singleton.
    rewrite (git_tag_delete_other version t _ Hne). cbn [tags]. tauto. }
  unfold tagged_build, goreleaser_release, run_command.
  destruct build as [[rc|] after]; cbn [ended dist_after].
  - destruct (rc =? 0)%Z eqn:Hrc; cbn [andb negb returned final fst snd].
    + rewrite git_tag_delete_present
        by (unfold tagged; simpl; apply elem_of_union; left;
            by apply elem_of_singleton).
      cbn. split_and!; [|done..].
      intros t Hne. rewrite elem_of_difference, elem_of_singleton.
      specialize (Htagged t Hne). unfold tagged in Htagged. cbn [tags] in Htagged.
      cbn [tags]. tauto.
    + split_and!; [|done|by rewrite git_tag_delete_dist].
      intros t Hne. rewrite (git_tag_delete_other version t _ Hne). cbn [tags].
      by apply Htagged.
  - cbn. split_and!; [|done..]. intros t Hne.
    specialize (Htagged t Hne). unfold tagged in Htagged. cbn [tags] in Htagged.
    done.
Qed.

(** *** [inject_platform_archives] *)

(** Whether it returns or raises, the injection leaves every entry of
    [dist/] that is not a release archive as it was: the [platforms]
    directory, checksum files, release notes. *)
Theorem injection_leaves_other_entries (d : dist_dir) (k : string) :
  k ∉ release_archives d → injected d !! k = d !! k.
Proof.
  intros Hk. destruct (d !! "platforms") as [x|] eqn:Hplat.
  - destruct (inject_stage_spec d) as (processed & rest & Hsplit & _ & Hother & _);
      [by eexists|].
    apply Hother. intros Hin. apply Hk. rewrite Hsplit. apply elem_of_app.
    by left.
  - unfold injected. by rewrite (inject_platform_archives_absent d Hplat).
Qed.

Lemma injection_leaves_other_entries_witness :
  injected sample_dist !! "platforms" = sample_dist !! "platforms".
Proof.
  apply (injection_leaves_other_entries sample_dist "platforms").
  apply release_archives_not_platforms.
Defined.

(** Whether it returns or raises, the injection neither adds nor removes
    a name in [dist/]. *)
Lemma injected_names (d : dist_dir) (k : string) :
  is_Some (injected d !! k) ↔ is_Some (d !! k).
Proof.
  destruct (d !! "platforms") as [x|] eqn:Hplat.
  - destruct (inject_stage_spec d) as (processed & rest & Hsplit & Hproc & Hother & _);
      [by eexists|].
    destruct (decide (k ∈ processed)) as [Hk|Hk].
    + destruct (Hproc k Hk) as (t & _ & ->).
      assert (k ∈ release_archives d) as Hin
        by (rewrite Hsplit; apply elem_of_app; by left).
      apply release_archives_elem in Hin as [Hsome _]. split; [done | by eexists].
    + by rewrite (Hother k Hk).
  - unfold injected. by rewrite (inject_platform_archives_absent d Hplat).
Qed.

(** After an injection that returns, a release archive has the format its
    name says and no member name twice.  A zip archive holds regular files
    only, so directory entries of the original are not kept; a tar.gz
    archive has an entry for the [platforms] directory. *)
Theorem rewritten_archive_shape (d : dist_dir) (name : string) :
  is_Some (d !! "platforms") →
  returned (inject_platform_archives d) = Ok () →
  name ∈ release_archives d →
  ∃ members,
    injected d !! name = Some (RegFile (Packed (format_of_name name) members)) ∧
    NoDup members.*1 ∧
    (format_of_name name = Zip → ∀ p n, (p, n) ∈ members → n ≠ Dir) ∧
    (format_of_name name = TarGz → (["platforms"], Dir) ∈ members).
Proof.
  intros Hplat Hret Hname.
  destruct (injected_all d Hplat Hret) as [Hall _].
  destruct (Hall name Hname) as (t & Hprep & Hinj).
  destruct (prepare_tree_spec _ _ _ Hprep) as (_ & _ & _ & _ & _ & Hdir & _).
  exists (walk (format_of_name name) t). split_and!.
  - exact Hinj.
  - apply walk_names_nodup.
  - intros ->. simpl. unfold walk_files.
    intros p n ([q data] & [= -> ->] & _)%list_elem_of_fmap. done.
  - intros ->. simpl. unfold walk_all. by apply elem_of_map_to_list.
Qed.

Lemma rewritten_archive_shape_witness :
  ∃ members,
    injected sample_dist !! windows_release
    = Some (RegFile (Packed (format_of_name windows_release) members)) ∧
    NoDup members.*1 ∧
    (format_of_name windows_release = Zip → ∀ p n, (p, n) ∈ members → n ≠ Dir) ∧
    (format_of_name windows_release = TarGz → (["platforms"], Dir) ∈ members).
Proof.
  apply (rewritten_archive_shape sample_dist windows_release).
  - vm_compute. eauto.
  - vm_compute. reflexivity.
  - apply list_elem_of_In. vm_compute. auto.
Defined.

(** *** [verify_outputs] *)

Lemma verify_outputs_verdict (d : dist_dir) :
  (verify_outputs (Some d)).2 = true
  ↔ ∃ name, is_Some (d !! name) ∧
            (glob_match "" ".tar.gz" name = true ∨
             glob_match "" ".zip" name = true).
Proof.
  unfold verify_outputs.
  destruct ((glob "" ".tar.gz" d).*1 ++ (glob "" ".zip" d).*1)
    as [|name names] eqn:Harchives; cbn [snd].
  - split; [done|]. intros (name & Hsome & Hmatch).
    assert (name ∈ (glob "" ".tar.gz" d).*1 ++ (glob "" ".zip" d).*1) as Hin.
    { rewrite elem_of_app, !glob_names_elem. tauto. }
    rewrite Harchives in Hin. by apply elem_of_nil in Hin.
  - split; [intros _|done]. exists name.
    assert (name ∈ (glob "" ".tar.gz" d).*1 ++ (glob "" ".zip" d).*1) as Hin
      by (rewrite Harchives; by left).
    rewrite elem_of_app, !glob_names_elem in Hin. tauto.
Qed.

(** [verify_outputs] fails exactly when [dist/] is missing or has no entry
    named [*.tar.gz] or [*.zip]; and the injection, whether it returns or
    raises, does not change its verdict. *)
Theorem verify_outputs_spec (d : dist_dir) :
  (verify_outputs None).2 = false ∧
  ((verify_outputs (Some d)).2 = true
   ↔ ∃ name, is_Some (d !! name) ∧
             (glob_match "" ".tar.gz" name = true ∨
              glob_match "" ".zip" name = true)) ∧
  (verify_outputs (Some (injected d))).2 = (verify_outputs (Some d)).2.
Proof.
  split_and!; [done | apply verify_outputs_verdict |].
  pose proof (verify_outputs_verdict d) as Hd.
  pose proof (verify_outputs_verdict (injected d)) as Hi.
  assert ((verify_outputs (Some (injected d))).2 = true
          ↔ (verify_outputs (Some d)).2 = true) as Hiff.
  { rewrite Hd, Hi. by setoid_rewrite injected_names. }
  clear Hd Hi.
  destruct (verify_outputs (Some (injected d))).2,
    (verify_outputs (Some d)).2; try done.
  - symmetry. by apply Hiff.
  - by apply Hiff.
Qed.

(** *** [check_dependencies] *)

Lemma find_goreleaser_two (cmd1 cmd2 : string) (c1 c2 : captured)
    (l : list message) (cmd : string) :
  find_goreleaser [(cmd1, c1); (cmd2, c2)] = (l, Some cmd) →
  (cmd = cmd1 ∧ ∃ out err, c1 = Completed 0 out err) ∨
  (cmd = cmd2 ∧ (∃ out err, c2 = Completed 0 out err) ∧
   ∀ out err, c1 ≠ Completed 0 out err).
Proof.
  cbn [find_goreleaser].
  assert (∀ c : captured,
            match c with
            | Completed rc _ _ => (rc =? 0)%Z = false
            | Unlaunched => True
            end → ∀ out err, c ≠ Completed 0 out err) as Hfailed.
  { intros [rc o e|] Hrc out err; [|done]. intros [= -> _ _]. done. }
  destruct c1 as [rc1 out1 err1|].
  - destruct (rc1 =? 0)%Z eqn:Hrc1.
    + intros [= _ <-]. left. apply Z.eqb_eq in Hrc1 as ->. eauto.
    + destruct c2 as [rc2 out2 err2|]; [|done].
      destruct (rc2 =? 0)%Z eqn:Hrc2; [|done].
      intros [= _ <-]. right. apply Z.eqb_eq in Hrc2 as ->.
      split_and!; [done | eauto |]. by apply (Hfailed (Completed rc1 out1 err1)).
  - destruct c2 as [rc2 out2 err2|]; [|done].
    destruct (rc2 =? 0)%Z eqn:Hrc2; [|done].
    intros [= _ <-]. right. apply Z.eqb_eq in Hrc2 as ->.
    split_and!; [done | eauto | done].
Qed.

(** When [check_dependencies] returns [True], [go version] and
    [git rev-parse] ended with 0, [.goreleaser.yml] is there, and the
    command returned is the first of [goreleaser] and
    [~/go/bin/goreleaser] whose [--version] ended with 0: the one in the
    home directory is taken only when the one on the search path is
    missing or failed. *)
Theorem check_dependencies_sound (env : environment) (cmd : string) :
  (check_dependencies env).2 = Checked true cmd →
  (∃ out err, go_version env = Completed 0 out err) ∧
  (∃ out err, git_rev_parse env = Completed 0 out err) ∧
  goreleaser_yml env = true ∧
  cmd ≠ "" ∧
  ((cmd = "goreleaser" ∧ ∃ out err, goreleaser_on_path env = Completed 0 out err) ∨
   (cmd = home_goreleaser env ∧
    (∃ out err, goreleaser_in_home env = Completed 0 out err) ∧
    ∀ out err, goreleaser_on_path env ≠ Completed 0 out err)).
Proof.
  unfold check_dependencies. cbv zeta.
  destruct (go_version env) as [rc out err|]; [|done].
  destruct (rc =? 0)%Z eqn:Hrc; cbn [negb]; [|done].
  apply Z.eqb_eq in Hrc as ->.
  destruct (if String.eqb out "" then Some "unknown" else words out !! 2%nat)
    as [version|]; [|done].
  destruct (find_goreleaser _) as [l2 [found|]] eqn:Hfind; [|done].
  destruct (String.eqb_spec found "") as [->|Hne]; [done|].
  destruct (git_rev_parse env) as [rc' out' err'|]; [|done].
  destruct (rc' =? 0)%Z eqn:Hrc'; cbn [negb]; [|done].
  apply Z.eqb_eq in Hrc' as ->.
  destruct (goreleaser_yml env); [|done].
  intros [= <-]. split_and!; eauto.
  by apply (find_goreleaser_two _ _ _ _ _ _ Hfind).
Qed.

Lemma check_dependencies_sound_witness :
  (∃ out err, go_version home_install = Completed 0 out err) ∧
  (∃ out err, git_rev_parse home_install = Completed 0 out err) ∧
  goreleaser_yml home_install = true ∧
  home_goreleaser home_install ≠ "" ∧
  ((home_goreleaser home_install = "goreleaser" ∧
    ∃ out err, goreleaser_on_path home_install = Completed 0 out err) ∨
   (home_goreleaser home_install = home_goreleaser home_install ∧
    (∃ out err, goreleaser_in_home home_install = Completed 0 out err) ∧
    ∀ out err, goreleaser_on_path home_install ≠ Completed 0 out err)).
Proof.
  apply (check_dependencies_sound home_install (home_goreleaser home_install)).
  vm_compute. reflexivity.
Defined.

(** A failed check never names a command: the second component is the
    empty string whenever the first is [False]. *)
Theorem check_dependencies_failure_names_no_command (env : environment)
    (cmd : string) :
  (check_dependencies env).2 = Checked false cmd → cmd = "".
Proof.
  unfold check_dependencies. cbv zeta.
  repeat (case_match; try done); by intros [= <-].
Qed.

Lemma check_dependencies_failure_names_no_command_witness :
  "" = "".
Proof.
  apply (check_dependencies_failure_names_no_command no_config "").
  vm_compute. reflexivity.
Defined.

(** [go version] ending with 0 after printing something with fewer than
    three words makes [check_dependencies] raise [IndexError]: the handler
    around the Go check catches only a failed or missing command.  Only
    the step heading has been printed by then. *)
Theorem check_dependencies_short_go_version (env : environment)
    (out err : string) :
  go_version env = Completed 0 out err →
  out ≠ "" →
  (length (words out) < 3)%nat →
  check_dependencies env = ([Step "Checking dependencies..."], IndexErrorRaised).
Proof.
  intros Hgo Hout Hshort. unfold check_dependencies. cbv zeta. rewrite Hgo.
  cbn [Z.eqb negb]. destruct (String.eqb_spec out "") as [->|_]; [done|].
  by rewrite (lookup_ge_None_2 (words out) 2) by lia.
Qed.

Lemma check_dependencies_short_go_version_witness :
  check_dependencies terse_go = ([Step "Checking dependencies..."], IndexErrorRaised).
Proof.
  apply (check_dependencies_short_go_version terse_go "go1.22" "").
  - reflexivity.
  - discriminate.
  - vm_compute. lia.
Defined.

End ReleaseExtras.

(** ** The platform archive builder: further properties *)
Module BuilderExtras.
Import CreatePlatformArchives BuilderFacts TreeFacts TreeProofs MakeRelease.
Import InjectProofs StringLemmas BuilderTheorems.

(** *** Paths below a directory *)

Lemma strip_base_spec (base p q : path) :
  strip_base base p = Some q ↔ p = base ++ q.
Proof.
  revert p. induction base as [|b base IH]; intros p; simpl.
  - split; [by intros [= ->] | by intros ->].
  - destruct p as [|c p]; [split; [done | intros [=]]|].
    destruct (String.eqb_spec b c) as [->|Hne].
    + rewrite IH. split; [by intros -> | by intros [= ->]].
    + split; [done | intros [= ? _]; done].
Qed.

Lemma subtree_lookup (t : tree) (d q : path) (n : node fdata) :
  subtree t d !! q = Some n ↔ q ≠ [] ∧ t !! (d ++ q) = Some n.
Proof.
  unfold subtree. split.
  - intros H%elem_of_list_to_map_2.
    apply list_elem_of_omap in H as ([p m] & Hin & Hf). simpl in Hf.
    destruct (strip_base d p) as [[|c r]|] eqn:Hs; try done.
    injection Hf as <- <-. apply strip_base_spec in Hs as ->.
    split; [done|]. by apply elem_of_map_to_list.
  - intros [Hne Hq]. apply elem_of_list_to_map_1'.
    + intros y ([p m] & Hin & Hf)%list_elem_of_omap. simpl in Hf.
      destruct (strip_base d p) as [[|c r]|] eqn:Hs; try done.
      injection Hf as Hr <-. apply strip_base_spec in Hs as ->.
      apply elem_of_map_to_list in Hin. rewrite Hr in Hin. congruence.
    + apply list_elem_of_omap. exists (d ++ q, n).
      split; [by apply elem_of_map_to_list|]. simpl.
      assert (strip_base d (d ++ q) = Some q) as -> by (by apply strip_base_spec).
      by destruct q.
Qed.

Lemma walk_elem (fmt : archive_format) (t : tree) (p : path) (n : node fdata) :
  (p, n) ∈ walk fmt t ↔ t !! p = Some n ∧ (fmt = Zip → n ≠ Dir).
Proof.
  split.
  - intros H. split; [by eapply walk_in_tree|]. intros ->. simpl in H.
    unfold walk_files in H.
    apply list_elem_of_fmap in H as ([q data] & [= -> ->] & _). done.
  - intros [Hp Hfmt]. destruct n as [data|]; [by apply walk_has_files|].
    destruct fmt; [|by destruct Hfmt]. simpl. unfold walk_all.
    by apply elem_of_map_to_list.
Qed.

(** *** [get_archive_info] *)

Lemma zip_ne_targz (a b : string) : a +:+ ".zip" ≠ b +:+ ".tar.gz".
Proof.
  intros H. apply (endswith_targz_not_zip (a +:+ ".zip")).
  - apply endswith_spec. by exists b.
  - apply endswith_spec. by exists a.
Qed.

(** No two platforms share an archive name, and the release script's test
    on the name ([endswith('.zip')]) gives the format that was written. *)
Theorem archive_names_distinct (platform platform' : string) :
  format_of_name (get_archive_info platform).1 = (get_archive_info platform).2 ∧
  ((get_archive_info platform).1 = (get_archive_info platform').1 →
   platform = platform').
Proof.
  unfold get_archive_info, format_of_name. split.
  - destruct (startswith "windows" platform); cbn [fst snd].
    + assert (endswith ".zip" (platform +:+ ".zip") = true) as ->; [|done].
      apply endswith_spec. by exists platform.
    + destruct (endswith ".zip" (platform +:+ ".tar.gz")) eqn:Hzip; [|done].
      exfalso. apply (endswith_targz_not_zip (platform +:+ ".tar.gz")); [|done].
      apply endswith_spec. by exists platform.
  - destruct (startswith "windows" platform), (startswith "windows" platform');
      cbn [fst].
    + apply append_inj_r.
    + intros H. by apply zip_ne_targz in H.
    + intros H. symmetry in H. by apply zip_ne_targz in H.
    + apply append_inj_r.
Qed.

Lemma archive_names_distinct_witness :
  format_of_name (get_archive_info "windows-amd64").1
  = (get_archive_info "windows-amd64").2 ∧
  ((get_archive_info "windows-amd64").1 = (get_archive_info "windows-amd64").1 →
   "windows-amd64" = "windows-amd64").
Proof. apply (archive_names_distinct "windows-amd64" "windows-amd64"). Defined.

(** An archive written by the builder into [dist/platforms] is among the
    platform archives that the release script copies into every release
    archive and counts in [verify_outputs]. *)
Theorem built_archive_is_collected (platform : string) (d : dist_dir)
    (children : gmap string (node fdata)) (x : node fdata) :
  d !! "platforms" = Some (SubDir children) →
  children !! (get_archive_info platform).1 = Some x →
  ((get_archive_info platform).1, x) ∈ platform_archives d.
Proof.
  intros Hd Hx. unfold platform_archives. rewrite Hd.
  apply elem_of_app. unfold get_archive_info in *.
  destruct (startswith "windows" platform); cbn [fst] in *.
  - right. apply glob_elem. split; [done|]. apply glob_match_suffix.
    by exists platform.
  - left. apply glob_elem. split; [done|]. apply glob_match_suffix.
    by exists platform.
Qed.

Lemma built_archive_is_collected_witness :
  ((get_archive_info "linux-amd64").1,
   File (Packed TarGz [(["portunix"], File (Bytes "ELF"))]))
  ∈ platform_archives InjectFacts.sample_dist.
Proof.
  apply (built_archive_is_collected "linux-amd64" InjectFacts.sample_dist
           InjectFacts.sample_platforms
           (File (Packed TarGz [(["portunix"], File (Bytes "ELF"))]))).
  - reflexivity.
  - vm_compute. reflexivity.
Defined.

(** *** What the loop writes *)

Lemma create_platform_archive_frame (platforms_dir output_dir : path)
    (platform : string) (fs : tree) (p : path) :
  p ≠ archive_path output_dir platform →
  after_platform platforms_dir output_dir platform fs !! p = fs !! p.
Proof.
  intros Hp. unfold after_platform, create_platform_archive, archive_path in *.
  destruct (negb _); [done|].
  destruct (iterdir _ _); [done|].
  destruct (get_archive_info platform) as [archive_name archive_type].
  cbn [fst] in Hp.
  destruct archive_type; [unfold create_tar_gz | unfold create_zip].
  - destruct (write_file _ _ _) as [fs1|e] eqn:Hw; [|done].
    apply write_file_spec in Hw as (_ & -> & _).
    destruct (lookup_node _ _) as [[data|]|]; cbn;
      by rewrite ?lookup_insert_ne by done.
  - destruct (write_file _ _ _) as [fs1|e] eqn:Hw; [|done].
    apply write_file_spec in Hw as (_ & -> & _). cbn.
    by rewrite !lookup_insert_ne by done.
Qed.

Lemma create_each_frame (platforms_dir output_dir : path)
    (platforms : list string) (fs : tree) (acc : Z) (p : path) :
  (∀ platform, platform ∈ platforms → p ≠ archive_path output_dir platform) →
  (create_each platforms_dir output_dir platforms fs acc).1.1 !! p = fs !! p.
Proof.
  revert fs acc. induction platforms as [|platform rest IH]; intros fs acc Hp;
    [done|].
  cbn [create_each].
  pose proof (create_platform_archive_frame platforms_dir output_dir platform fs p)
    as Hone.
  unfold after_platform in Hone.
  destruct (create_platform_archive _ _ _ _) as [[fs1 l1] created].
  cbn [fst] in Hone.
  specialize (IH fs1 (if created then (acc + 1)%Z else acc)).
  destruct (create_each _ _ rest fs1 _) as [[fs2 l2] n]. cbn [fst] in *.
  rewrite IH by (intros q Hq; apply Hp; by right).
  apply Hone, Hp. by left.
Qed.

(** The loop changes nothing but the archives of the four platforms in the
    output directory: every other path holds at the end what it held
    before, for every outcome of every platform. *)
Theorem builder_touches_only_archives (platforms_dir output_dir : path)
    (fs : tree) (p : path) :
  (∀ platform, platform ∈ PLATFORMS → p ≠ archive_path output_dir platform) →
  final (create_platform_archives platforms_dir output_dir fs) !! p = fs !! p.
Proof.
  intros Hp. unfold create_platform_archives.
  pose proof (create_each_frame platforms_dir output_dir PLATFORMS fs 0 p Hp)
    as Hframe.
  destruct (create_each _ _ _ _ _) as [[fs' l] n]. exact Hframe.
Qed.

Lemma builder_touches_only_archives_witness :
  final (create_platform_archives ["dist"; "platforms"] ["dist"; "platforms"]
           only_linux)
    !! ["dist"; "platforms"; "linux-amd64"; "portunix"]
  = only_linux !! ["dist"; "platforms"; "linux-amd64"; "portunix"].
Proof.
  apply (builder_touches_only_archives ["dist"; "platforms"] ["dist"; "platforms"]
           only_linux ["dist"; "platforms"; "linux-amd64"; "portunix"]).
  intros platform Hin. unfold archive_path. simpl. discriminate.
Defined.

(** A created archive holds the platform directory as it was found: the
    regular files below it under their relative paths and, in a tar.gz
    archive only, the directories below it.  (The output path is assumed
    not to lie below the platform directory, as it does not with the
    directories the script uses.) *)
Theorem created_archive_members (platforms_dir output_dir : path)
    (platform : string) (fs : tree) :
  classify platforms_dir output_dir platform fs = Created →
  (∀ rel, platforms_dir ++ platform :: rel ≠ archive_path output_dir platform) →
  ∃ members,
    after_platform platforms_dir output_dir platform fs
      !! archive_path output_dir platform
    = Some (File (Packed (get_archive_info platform).2 members)) ∧
    NoDup members.*1 ∧
    (∀ rel data,
       (rel, File data) ∈ members
       ↔ rel ≠ [] ∧ fs !! (platforms_dir ++ platform :: rel) = Some (File data)) ∧
    (∀ rel,
       (rel, Dir) ∈ members
       ↔ (get_archive_info platform).2 = TarGz ∧ rel ≠ [] ∧
         fs !! (platforms_dir ++ platform :: rel) = Some Dir).
Proof.
  intros Hcreated Houtside.
  unfold classify in Hcreated.
  unfold after_platform, create_platform_archive, is_dir, archive_path in *.
  replace (platforms_dir ++ [platform]) with (platforms_dir ++ platform :: [])
    in * by done.
  destruct (lookup_node fs (platforms_dir ++ [platform])) as [[data|]|] eqn:Hdir;
    try done.
  cbn [negb].
  destruct (iterdir fs (platforms_dir ++ [platform])) as [|e es]; [done|].
  destruct (get_archive_info platform) as [archive_name archive_type].
  cbn [fst snd] in *.
  set (target := output_dir ++ [archive_name]) in *.
  set (source := platforms_dir ++ [platform]) in *.
  assert (∀ rel n, subtree (delete target fs) source !! rel = Some n
                   ↔ rel ≠ [] ∧ fs !! (platforms_dir ++ platform :: rel) = Some n)
    as Hsub.
  { intros rel n. rewrite subtree_lookup. unfold source.
    rewrite <- app_assoc. cbn [app].
    by rewrite lookup_delete_ne by (intros Heq; by apply (Houtside rel)). }
  rewrite (open_for_writing fs target (Bytes "") (Packed archive_type []))
    in Hcreated.
  destruct archive_type; [unfold create_tar_gz | unfold create_zip];
    destruct (write_file fs target _) as [fs1|err] eqn:Hw; try done.
  - assert (lookup_node fs1 source = Some Dir) as ->.
    { apply write_file_spec in Hw as (Hne & -> & _ & Htarget).
      unfold source in *. rewrite lookup_node_snoc in *.
      rewrite lookup_insert_ne; [done|].
      intros Heq. rewrite Heq in Htarget. contradiction. }
    cbn [returned final fst]. eexists. split_and!.
    + apply lookup_insert_eq.
    + apply walk_names_nodup.
    + intros rel data. rewrite walk_elem, Hsub.
      split; [by intros [? _] | intros H; by split].
    + intros rel. rewrite walk_elem, Hsub.
      split; [by intros [[? ?] _] | intros (_ & ? & ?); by split].
  - assert (lookup_node fs1 source = Some Dir) as ->.
    { apply write_file_spec in Hw as (Hne & -> & _ & Htarget).
      unfold source in *. rewrite lookup_node_snoc in *.
      rewrite lookup_insert_ne; [done|].
      intros Heq. rewrite Heq in Htarget. contradiction. }
    cbn [returned final fst]. eexists. split_and!.
    + apply lookup_insert_eq.
    + apply walk_names_nodup.
    + intros rel data. rewrite walk_elem, Hsub.
      split; [by intros [? _] | intros H; by split].
    + intros rel. rewrite walk_elem, Hsub.
      split; [intros [_ H]; by destruct H | by intros [[=] _]].
Qed.

Lemma created_archive_members_witness :
  ∃ members,
    after_platform ["dist"; "platforms"] ["dist"; "platforms"] "linux-amd64"
      only_linux
      !! archive_path ["dist"; "platforms"] "linux-amd64"
    = Some (File (Packed (get_archive_info "linux-amd64").2 members)) ∧
    NoDup members.*1 ∧
    (∀ rel data,
       (rel, File data) ∈ members
       ↔ rel ≠ [] ∧
         only_linux !! (["dist"; "platforms"] ++ "linux-amd64" :: rel)
         = Some (File data)) ∧
    (∀ rel,
       (rel, Dir) ∈ members
       ↔ (get_archive_info "linux-amd64").2 = TarGz ∧ rel ≠ [] ∧
         only_linux !! (["dist"; "platforms"] ++ "linux-amd64" :: rel)
         = Some Dir).
Proof.
  apply (created_archive_members ["dist"; "platforms"] ["dist"; "platforms"]
           "linux-amd64" only_linux).
  - vm_compute. reflexivity.
  - intros rel. unfold archive_path. simpl. destruct rel; discriminate.
Defined.

(** *** [main] *)

Lemma create_each_count (platforms_dir output_dir : path)
    (platforms : list string) (fs : tree) (acc : Z) :
  let '(fs', _, n) := create_each platforms_dir output_dir platforms fs acc in
  (acc ≤ n)%Z ∧
  (n = acc → fs' = fs) ∧
  (n ≠ acc →
   ∃ platform members,
     platform ∈ platforms ∧
     fs' !! archive_path output_dir platform
     = Some (File (Packed (get_archive_info platform).2 members))).
Proof.
  revert fs acc. induction platforms as [|platform rest IH]; intros fs acc.
  - cbn. split_and!; [lia | done | done].
  - cbn [create_each].
    pose proof (create_platform_archive_spec platforms_dir output_dir platform fs)
      as Hone.
    destruct (create_platform_archive _ _ _ _) as [[fs1 l1] created].
    cbv zeta in Hone. destruct Hone as (Hcreated & _ & _ & _ & Hsame & Harchive).
    specialize (IH fs1 (if created then (acc + 1)%Z else acc)).
    destruct (create_each _ _ rest fs1 _) as [[fs2 l2] n].
    destruct IH as (Hle & Hnone & Hsome).
    destruct created.
    + split_and!; [lia | lia |]. intros _.
      destruct (decide (n = (acc + 1)%Z)) as [Heq|Hne].
      * rewrite (Hnone Heq). destruct (Harchive (eq_sym Hcreated)) as [members Hm].
        exists platform, members. split; [by left | done].
      * destruct (Hsome Hne) as (q & members & Hq & Hm).
        exists q, members. split; [by right | done].
    + split_and!; [done | |].
      * intros Heq. rewrite (Hnone Heq). apply Hsame. by rewrite <- Hcreated.
      * intros Hne. destruct (Hsome Hne) as (q & members & Hq & Hm).
        exists q, members. split; [by right | done].
Qed.

(** [main] ends with status 1 only without having written an archive: the
    file system is as it was, up to the output directory having been
    created.  When it ends with status 0, the archive of at least one
    platform is in the output directory. *)
Theorem main_status_and_archives (platforms_dir output_dir : path) (fs : tree) :
  (returned (CreatePlatformArchives.main platforms_dir output_dir fs) = Ok 1%Z →
   final (CreatePlatformArchives.main platforms_dir output_dir fs) = fs ∨
   mkdir_parents fs output_dir = Ok (final (CreatePlatformArchives.main platforms_dir output_dir fs))) ∧
  (returned (CreatePlatformArchives.main platforms_dir output_dir fs) = Ok 0%Z →
   ∃ platform members,
     platform ∈ PLATFORMS ∧
     final (CreatePlatformArchives.main platforms_dir output_dir fs) !! archive_path output_dir platform
     = Some (File (Packed (get_archive_info platform).2 members))).
Proof.
  unfold CreatePlatformArchives.main.
  destruct (negb (is_dir fs platforms_dir)); [split; [by left | done]|].
  destruct (mkdir_parents fs output_dir) as [fs1|e]; [|split; done].
  unfold create_platform_archives.
  pose proof (create_each_count platforms_dir output_dir PLATFORMS fs1 0) as Hcount.
  destruct (create_each _ _ _ _ _) as [[fs2 l] n].
  destruct Hcount as (_ & Hnone & Hsome). cbn [returned final printed].
  destruct (n =? 0)%Z eqn:Hn; cbn [returned final].
  - apply Z.eqb_eq in Hn. split; [|done]. intros _. right. by rewrite (Hnone Hn).
  - apply Z.eqb_neq in Hn. split; [done|]. intros _. by apply Hsome.
Qed.

Lemma main_status_and_archives_witness :
  final (CreatePlatformArchives.main ["dist"; "platforms"] ["dist"; "platforms"] nothing_built)
  = nothing_built ∨
  mkdir_parents nothing_built ["dist"; "platforms"]
  = Ok (final (CreatePlatformArchives.main ["dist"; "platforms"] ["dist"; "platforms"] nothing_built)).
Proof.
  destruct (main_status_and_archives ["dist"; "platforms"] ["dist"; "platforms"]
              nothing_built) as [Hfailed _].
  apply Hfailed. vm_compute. reflexivity.
Defined.

End BuilderExtras.
